(** * hz.tools/gpib: the bus device abstraction

    A shallow embedding of package [gpib] (status decoding, the Device
    handle, Open / Close / Local and the Write / Read transfers) together
    with the properties its specification states about them.

    The package is a cgo binding: every operation calls into linux-gpib
    and then reads the library's global registers [iberr], [ibcnt] and
    [ibcntl].  The C library is not part of the package, so it enters the
    development as an interface ([Native]); the Go code on top of it is
    translated function by function. *)

From stdpp Require Import base numbers option list strings gmap.
From Stdlib Require Import ZArith Lia.
From Stdlib Require Init.Byte.

Local Open Scope Z_scope.

(** ** Machine integers

    Go and C integers are modelled as [Z]; a conversion to a fixed-width
    type writes its wrap-around out. *)

Definition wrap_signed (bits x : Z) : Z :=
  (x + 2 ^ (bits - 1)) `mod` 2 ^ bits - 2 ^ (bits - 1).

Definition wrap_unsigned (bits x : Z) : Z := x `mod` 2 ^ bits.

(** [C.int(x)]: a 32-bit signed C integer. *)
Definition C_int (x : Z) : Z := wrap_signed 32 x.

(** [C.long(x)] and [C.size_t(x)] on a 64-bit platform. *)
Definition C_long (x : Z) : Z := wrap_signed 64 x.
Definition C_size_t (x : Z) : Z := wrap_unsigned 64 x.

(** [uintptr(x)], the representation of [syscall.Errno]. *)
Definition uintptr (x : Z) : Z := wrap_unsigned 64 x.

Abbreviation byte := Init.Byte.byte.

(** ** Go error values

    The package produces two sorts of [error]: a [syscall.Errno] and the
    value of [fmt.Errorf] applied to a constant message.  A Go [error]
    that may be [nil] is an [option error]. *)

Inductive error : Type :=
  | Errno (e : Z)
  | Errorf (msg : string).

#[global] Instance error_eq_dec : EqDecision error.
Proof. solve_decision. Defined.

(** ** The native library

    [lib] is the state of linux-gpib and of the bus behind it.  Each C
    entry point takes its C arguments and the state, and yields its C
    return value and the next state; the three registers are read from
    the state.  [ibrd] also yields what the buffer it was given holds
    afterwards, byte by byte. *)

Class Native (lib : Type) : Type := {
  ibdev : Z → Z → Z → Z → Z → Z → lib → Z * lib;
  ibonl : Z → Z → lib → Z * lib;
  ibloc : Z → lib → Z * lib;
  ibwrt : Z → list byte → Z → lib → Z * lib;
  ibrd : Z → Z → lib → Z * (nat → byte) * lib;
  iberr : lib → Z;
  ibcnt : lib → Z;
  ibcntl : lib → Z
}.

(** ** Status decoding *)

Section Decoder.
Context {lib : Type} `{!Native lib}.

(** [type status int] *)
Definition status : Type := Z.

Definition getiberr (l : lib) : error :=
  let code := iberr l in
  if code =? 0 then Errno (uintptr (ibcnt l))
  else if code =? 1 then
    Errorf "gpib: interface board needs to be controller-in-charge, but is not"
  else if code =? 2 then
    Errorf "gpib: attempted to write data or command bytes, but there are no listeners currently addressed"
  else if code =? 3 then
    Errorf "gpib: interface board has failed to address itself properly before starting an io operation"
  else if code =? 4 then
    Errorf "gpib: arguments to the function call were invalid"
  else if code =? 5 then
    Errorf "gpib: interface board needs to be system controller, but is not"
  else if code =? 6 then
    Errorf "gpib: read or write of data bytes has been aborted"
  else if code =? 7 then
    Errorf "gpib: interface board does not exist"
  else if code =? 10 then
    Errorf "gpib: function call can not proceed due to an asynchronous IO operation"
  else if code =? 11 then
    Errorf "gpib: GPIB board lacks desired capability"
  else if code =? 12 then Errno (uintptr (ibcnt l))
  else if code =? 14 then
    Errorf "gpib: attempt to write command bytes to the bus has timed out"
  else if code =? 15 then
    Errorf "gpib: serial poll status bytes have been lost"
  else if code =? 16 then
    Errorf "gpib: serial poll request service line is stuck on"
  else Errorf "gpib: unknown error".

(** [func (s status) Err() error] *)
Definition Err (s : status) (l : lib) : option error :=
  if Z.land s 0x8000 =? 0x8000 then Some (getiberr l) else None.

End Decoder.

(** ** The error taxonomy of the specification

    The specification names the decoder's results by kind.  [ErrorKind]
    and [kind_of_code] follow the wording of its table; [error_of_kind]
    gives the Go value the package uses for each kind. *)

Inductive ErrorKind : Type :=
  | SystemCall (errno : Z)
  | NotControllerInCharge
  | NoListeners
  | AddressingFailure
  | InvalidArguments
  | NotSystemController
  | IOAborted
  | BoardNotFound
  | AsyncPending
  | CapabilityMissing
  | Timeout
  | StatusBytesLost
  | ServiceRequestStuck
  | Unknown.

Definition spec_table : list (Z * (Z → ErrorKind)) :=
  [ (0, SystemCall); (1, λ _, NotControllerInCharge); (2, λ _, NoListeners);
    (3, λ _, AddressingFailure); (4, λ _, InvalidArguments);
    (5, λ _, NotSystemController); (6, λ _, IOAborted);
    (7, λ _, BoardNotFound); (10, λ _, AsyncPending);
    (11, λ _, CapabilityMissing); (12, SystemCall); (14, λ _, Timeout);
    (15, λ _, StatusBytesLost); (16, λ _, ServiceRequestStuck) ].

Fixpoint table_lookup (t : list (Z * (Z → ErrorKind))) (code : Z)
    : option (Z → ErrorKind) :=
  match t with
  | [] => None
  | (c, k) :: t' => if code =? c then Some k else table_lookup t' code
  end.

(** The kind the table gives for an auxiliary code, [Unknown] for a code
    that is not in it; [count] is the byte-count register. *)
Definition kind_of_code (code count : Z) : ErrorKind :=
  match table_lookup spec_table code with
  | Some k => k count
  | None => Unknown
  end.

Definition error_of_kind (k : ErrorKind) : error :=
  match k with
  | SystemCall errno => Errno (uintptr errno)
  | NotControllerInCharge =>
      Errorf "gpib: interface board needs to be controller-in-charge, but is not"
  | NoListeners =>
      Errorf "gpib: attempted to write data or command bytes, but there are no listeners currently addressed"
  | AddressingFailure =>
      Errorf "gpib: interface board has failed to address itself properly before starting an io operation"
  | InvalidArguments => Errorf "gpib: arguments to the function call were invalid"
  | NotSystemController =>
      Errorf "gpib: interface board needs to be system controller, but is not"
  | IOAborted => Errorf "gpib: read or write of data bytes has been aborted"
  | BoardNotFound => Errorf "gpib: interface board does not exist"
  | AsyncPending =>
      Errorf "gpib: function call can not proceed due to an asynchronous IO operation"
  | CapabilityMissing => Errorf "gpib: GPIB board lacks desired capability"
  | Timeout => Errorf "gpib: attempt to write command bytes to the bus has timed out"
  | StatusBytesLost => Errorf "gpib: serial poll status bytes have been lost"
  | ServiceRequestStuck => Errorf "gpib: serial poll request service line is stuck on"
  | Unknown => Errorf "gpib: unknown error"
  end.

(** ** Contexts, devices and the world

    A [context.Context] is the background context, a context supplied by
    the caller, or one derived by [context.WithCancel]; the derived one
    is named by a number, and its [CancelFunc] is that number. *)

Inductive Context : Type :=
  | Background
  | Supplied (name : nat)
  | Derived (id : nat) (parent : Context).

Definition CancelFunc : Type := nat.

Record Options : Type := mkOptions {
  BaseContext : option Context
}.

Record Device : Type := mkDevice {
  ctx : Context;
  cancel : CancelFunc;
  closed : bool;
  descriptor : Z
}.

Definition set_closed (d : Device) (b : bool) : Device :=
  mkDevice (ctx d) (cancel d) b (descriptor d).

(** The address of a [Device]; a [*Device] is [None] when it is [nil]. *)
Definition loc : Type := nat.

(** What the program does to the outside, in the order it does it. *)
Inductive event : Type :=
  | EvWithCancel (id : nat) (parent : Context)
  | EvCancel (c : CancelFunc)
  | EvIbdev (board pad sad : Z)
  | EvIbonl (ud v : Z)
  | EvIbloc (ud : Z)
  | EvIbwrt (ud : Z) (data : list byte) (cnt : Z)
  | EvIbrd (ud : Z) (cnt : Z).

Definition is_cancel (e : event) : bool :=
  match e with EvCancel _ => true | _ => false end.

Definition is_release (e : event) : bool :=
  match e with EvIbonl _ _ => true | _ => false end.

(** How often a trace invokes a cancel function, and how often it calls
    the native release [ibonl]. *)
Definition cancel_count (t : list event) : nat :=
  length (List.filter is_cancel t).
Definition release_count (t : list event) : nat :=
  length (List.filter is_release t).

Section Program.
Context {lib : Type} `{!Native lib}.

Record World : Type := mkWorld {
  native : lib;
  heap : gmap loc Device;
  trace : list event;
  contexts : nat
}.

(** A Go computation returns, panics, or leaves defined behaviour: a
    read outside a C allocation may end the process on a memory fault
    or go on with bytes nobody chose, and nothing is said about what
    follows it. *)
Inductive Outcome (A : Type) : Type :=
  | Returns (a : A) (w : World)
  | Panics (msg : string) (w : World)
  | Undefined (w : World).
Global Arguments Returns {A} a w.
Global Arguments Panics {A} msg w.
Global Arguments Undefined {A} w.

Definition Go (A : Type) : Type := World → Outcome A.

Definition world_of {A} (o : Outcome A) : World :=
  match o with Returns _ w => w | Panics _ w => w | Undefined w => w end.

Global Instance Go_ret : MRet Go := λ A a w, Returns a w.
Global Instance Go_bind : MBind Go := λ A B k m w,
  match m w with
  | Returns a w' => k a w'
  | Panics msg w' => Panics msg w'
  | Undefined w' => Undefined w'
  end.

Definition panic {A} (msg : string) : Go A := λ w, Panics msg w.

Definition undefined {A} : Go A := λ w, Undefined w.

(** A call into the C library: logged, and run on the library state. *)
Definition call {A} (ev : event) (f : lib → A * lib) : Go A := λ w,
  let '(a, l') := f (native w) in
  Returns a (mkWorld l' (heap w) (trace w ++ [ev]) (contexts w)).

(** Reading a register of the library. *)
Definition register {A} (f : lib → A) : Go A := λ w, Returns (f (native w)) w.

Definition nil_dereference : string :=
  "runtime error: invalid memory address or nil pointer dereference".

(** Dereferencing and updating a [*Device]. *)
Definition load (p : option loc) : Go Device := λ w,
  match p ≫= (λ a, heap w !! a) with
  | Some d => Returns d w
  | None => Panics nil_dereference w
  end.

Definition store (p : option loc) (d : Device) : Go unit := λ w,
  match p ≫= (λ a, heap w !! a ≫= λ _, Some a) with
  | Some a => Returns () (mkWorld (native w) (<[a := d]> (heap w)) (trace w) (contexts w))
  | None => Panics nil_dereference w
  end.

(** [&Device{...}] *)
Definition new (d : Device) : Go (option loc) := λ w,
  let a := fresh (dom (heap w)) in
  Returns (Some a) (mkWorld (native w) (<[a := d]> (heap w)) (trace w) (contexts w)).

(** [context.WithCancel(parent)] *)
Definition WithCancel (parent : Context) : Go (Context * CancelFunc) := λ w,
  let id := contexts w in
  Returns (Derived id parent, id)
    (mkWorld (native w) (heap w) (trace w ++ [EvWithCancel id parent]) (S id)).

(** Invoking a [CancelFunc]. *)
Definition invoke (c : CancelFunc) : Go unit := λ w,
  Returns () (mkWorld (native w) (heap w) (trace w ++ [EvCancel c]) (contexts w)).

(** [func (opts *Options) context() context.Context] *)
Definition Options_context (opts : option Options) : Context :=
  match opts with
  | None => Background
  | Some o =>
      match BaseContext o with
      | None => Background
      | Some c => c
      end
  end.

(** [func (d *Device) Close() error] *)
Definition Close (p : option loc) : Go (option error) :=
  d ← load p;
  if closed d then mret None
  else
    invoke (cancel d);;
    rv ← call (EvIbonl (descriptor d) 0) (ibonl (descriptor d) 0);
    err ← register (Err rv);
    match err with
    | Some e => mret (Some e)
    | None => store p (set_closed d true);; mret None
    end.

(** [func (d *Device) Local() error] *)
Definition Local (p : option loc) : Go (option error) :=
  d ← load p;
  rv ← call (EvIbloc (descriptor d)) (ibloc (descriptor d));
  register (Err rv).

(** [func (d *Device) Write(buf []byte) (int, error)] *)
Definition Write (p : option loc) (buf : list byte) : Go (Z * option error) :=
  let cb := buf in
  d ← load p;
  let n := C_long (Z.of_nat (length buf)) in
  rv ← call (EvIbwrt (descriptor d) cb n) (ibwrt (descriptor d) cb n);
  err ← register (Err rv);
  match err with
  | Some e => mret (0, Some e)
  | None => mret (Z.of_nat (length buf), None)
  end.

(** A C allocation, as [C.malloc(size)] returns it: its size in bytes
    and the bytes it holds. *)
Record CBuffer : Type := mkCBuffer {
  c_size : Z;
  c_bytes : nat → byte
}.

(** [C.GoBytes(p, n)]: a Go slice holding the [n] bytes at [p].  The
    runtime panics on a negative length; a length beyond the allocation
    reads the C heap past its end. *)
Definition GoBytes (cbuf : CBuffer) (n : Z) : Go (list byte) :=
  if n <? 0 then panic "runtime error: gobytes: length out of range"
  else if c_size cbuf <? n then undefined
  else mret (c_bytes cbuf <$> seq 0 (Z.to_nat n)).

(** The builtin [copy(dst, src)]: the updated [dst] and the number of
    bytes copied. *)
Definition copy (dst src : list byte) : list byte * Z :=
  let n := (length dst `min` length src)%nat in
  (take n src ++ drop n dst, Z.of_nat n).

(** [func (d *Device) Read(buf []byte) (int, error)]: the result also
    carries the caller's buffer as the call leaves it. *)
Definition Read (p : option loc) (buf : list byte) : Go (list byte * Z * option error) :=
  let cbuflen := C_size_t (Z.of_nat (length buf)) in
  d ← load p;
  '(rv, held) ← call (EvIbrd (descriptor d) (C_long cbuflen))
                     (ibrd (descriptor d) (C_long cbuflen));
  let cbuf := mkCBuffer cbuflen held in
  err ← register (Err rv);
  match err with
  | Some e => mret (buf, 0, Some e)
  | None =>
      leng ← register ibcntl;
      bytes ← GoBytes cbuf (C_int leng);
      let '(buf', i) := copy buf bytes in
      mret (buf', i, None)
  end.

(** The error of [Open], built by [fmt.Errorf] like those of
    [getiberr] but outside its [switch]. *)
Definition OpenError : error :=
  Errorf "gpib: failed to open the specified device".

(** [func Open(board, pad, sad int, opts *Options)], returning a
    [*Device] and an [error]. *)
Definition Open (board pad sad : Z) (opts : option Options)
    : Go (option loc * option error) :=
  '(ctx, cancel) ← WithCancel (Options_context opts);
  desc ← call (EvIbdev (C_int board) (C_int pad) (C_int sad))
              (ibdev (C_int board) (C_int pad) (C_int sad) 0 0 0);
  if desc =? -1 then
    mret (None, Some OpenError)
  else
    p ← new (mkDevice ctx cancel false desc);
    mret (p, None).

(** *** Sequences of operations on one Device *)

Inductive op : Type :=
  | OpClose
  | OpLocal
  | OpWrite (buf : list byte)
  | OpRead (buf : list byte).

Definition step (p : option loc) (o : op) : Go (option error) :=
  match o with
  | OpClose => Close p
  | OpLocal => Local p
  | OpWrite buf => r ← Write p buf; mret r.2
  | OpRead buf => r ← Read p buf; mret r.2
  end.

(** Runs the operations in order; the log holds each operation that
    returned with the error it returned.  A panic ends the program, and
    so does undefined behaviour as far as this account goes. *)
Fixpoint run (p : option loc) (ops : list op) (w : World)
    : list (op * option error) * World :=
  match ops with
  | [] => ([], w)
  | o :: ops' =>
      match step p o w with
      | Returns r w' =>
          let '(log, w'') := run p ops' w' in ((o, r) :: log, w'')
      | Panics _ w' => ([], w')
      | Undefined w' => ([], w')
      end
  end.

Definition failed_close (entry : op * option error) : bool :=
  match entry with
  | (OpClose, Some _) => true
  | _ => false
  end.

Definition failed_closes (log : list (op * option error)) : nat :=
  length (List.filter failed_close log).

(** The closed flag of the Device at [p]; [false] where there is none. *)
Definition is_closed (p : option loc) (w : World) : bool :=
  match p ≫= (λ a, heap w !! a) with
  | Some d => closed d
  | None => false
  end.

(** Whether the Device at [p], open in [w], is closed in [w']. *)
Definition newly_closed (p : option loc) (w w' : World) : bool :=
  negb (is_closed p w) && is_closed p w'.

End Program.

Global Arguments World lib : clear implicits.
Global Arguments Outcome lib A : clear implicits.
Global Arguments Go lib A : clear implicits.

(** ** Package hp437: the HP 437B power meter

    The driver formats ASCII commands and hands them to [Write], and
    parses the reply that [Read] delivers.  A Go string is its bytes.
    What the Go standard library does with a [float64] (the verb [%f] of
    [fmt], [strconv.ParseFloat]) and [strings.TrimSpace] are outside the
    repository and enter as parameters of the methods that use them. *)

Module hp437.

(** [gpib.Device], before this package's own [Device] takes the name. *)
Abbreviation GpibDevice := Device.

Definition bytes (s : string) : list byte := String.list_byte_of_string s.

(** The line terminator ["\r\n"] that ends every command. *)
Definition CRLF : list byte := [Byte.x0d; Byte.x0a].

(** [type Device struct { *gpib.Device }] *)
Record Device : Type := mkDevice {
  gpib_Device : option loc
}.

(** [func New(dev *gpib.Device) Device] *)
Definition New (dev : option loc) : Device := mkDevice dev.

(** [type Units string], with the package variables [Watts] and [DBM] at
    the values they are declared with. *)
Definition Units : Type := list byte.
Definition Watts : Units := bytes "LN".
Definition DBM : Units := bytes "LG".

#[global] Instance byte_eq_decision : EqDecision byte :=
  Stdlib.Strings.Byte.byte_eq_dec.

(** [func (u Units) String() string] *)
Definition Units_String (u : Units) : list byte :=
  if bool_decide (u = DBM) then bytes "dBm"
  else if bool_decide (u = Watts) then bytes "Watts"
  else u.

(** [make([]byte, n)] *)
Definition make (n : nat) : list byte := replicate n Byte.x00.

Section Methods.
Context {lib : Type} `{!Native lib}.

(** The slice expression [buf[:i]] of a slice whose capacity is its
    length; the runtime panics when [i] is out of range (its message
    goes on to name the index and the capacity). *)
Definition slice_to (buf : list byte) (i : Z) : Go lib (list byte) :=
  if (i <? 0) || (Z.of_nat (length buf) <? i) then
    panic "runtime error: slice bounds out of range"
  else mret (take (Z.to_nat i) buf).

(** What a command amounts to on a live Device [d]: one [ibwrt] of the
    payload on its descriptor, with the decoded status as the result. *)
Definition transmitted (d : GpibDevice) (w : World lib)
    (payload : list byte) : Outcome lib (option error) :=
  let n := C_long (Z.of_nat (length payload)) in
  let '(rv, l') := ibwrt (descriptor d) payload n (native w) in
  Returns (Err rv l')
    (mkWorld l' (heap w) (trace w ++ [EvIbwrt (descriptor d) payload n])
             (contexts w)).

(** [func (dev Device) Reset() error] *)
Definition Reset (dev : Device) : Go lib (option error) :=
  r ← Write (gpib_Device dev) (bytes "*RST" ++ CRLF);
  mret r.2.

(** [func (dev Device) Zero() error] *)
Definition Zero (dev : Device) : Go lib (option error) :=
  r ← Write (gpib_Device dev) (bytes "ZE" ++ CRLF);
  mret r.2.

(** [func (dev Device) DisplayUser(s string) error]: the verb [%s]
    writes the bytes of [s]. *)
Definition DisplayUser (dev : Device) (s : list byte) : Go lib (option error) :=
  r ← Write (gpib_Device dev) (bytes "DU" ++ s ++ CRLF);
  mret r.2.

(** [func (dev Device) Unit(units Units) error]: [Units] has a [String]
    method, and [fmt] formats an operand that has one, under the verb
    [%s], by the string the method returns. *)
Definition Unit (dev : Device) (units : Units) : Go lib (option error) :=
  r ← Write (gpib_Device dev) (Units_String units ++ CRLF);
  mret r.2.

Context {float64 NumError : Type}.
Variable Sprintf_f : float64 → list byte.
Variable TrimSpace : list byte → list byte.
Variable ParseFloat : list byte → float64 * option NumError.
Variable float64_0 : float64.

(** [func (dev Device) Offset(offset float64) error] *)
Definition Offset (dev : Device) (offset : float64) : Go lib (option error) :=
  r ← Write (gpib_Device dev) (bytes "OS" ++ Sprintf_f offset ++ bytes "EN" ++ CRLF);
  mret r.2.

(** [func (dev Device) Power() (float64, error)]: the error is the one
    of [Read] or the one of [strconv.ParseFloat]. *)
Definition Power (dev : Device) : Go lib (float64 * option (error + NumError)) :=
  let buf := make 1024 in
  r ← Read (gpib_Device dev) buf;
  let '(buf, i, err) := r in
  match err with
  | Some e => mret (float64_0, Some (inl e))
  | None =>
      buf ← slice_to buf i;
      s ← slice_to buf i;
      let reading := TrimSpace s in
      let '(x, e) := ParseFloat reading in
      mret (x, inr <$> e)
  end.

End Methods.

End hp437.

(** ** A simulated board

    A scripted stand-in for linux-gpib: every call takes the next reply
    of the script, loads the registers from it and returns its value; a
    board whose script has run out completes every call. *)

Record Reply : Type := mkReply {
  r_value : Z;
  r_iberr : Z;
  r_ibcnt : Z;
  r_ibcntl : Z;
  r_data : list byte
}.

Record Board : Type := mkBoard {
  b_iberr : Z;
  b_ibcnt : Z;
  b_ibcntl : Z;
  b_script : list Reply
}.

(** The status bits of linux-gpib that the replies below use. *)
Definition ERR : Z := 0x8000.
Definition CMPL : Z := 0x0100.

Definition completed : Reply := mkReply CMPL 0 0 0 [].

Definition reply (b : Board) : Reply * Board :=
  let r := hd completed (b_script b) in
  (r, mkBoard (r_iberr r) (r_ibcnt r) (r_ibcntl r) (tl (b_script b))).

#[global] Instance Board_Native : Native Board := {|
  ibdev := λ _ _ _ _ _ _ b, let '(r, b') := reply b in (r_value r, b');
  ibonl := λ _ _ b, let '(r, b') := reply b in (r_value r, b');
  ibloc := λ _ b, let '(r, b') := reply b in (r_value r, b');
  ibwrt := λ _ _ _ b, let '(r, b') := reply b in (r_value r, b');
  ibrd := λ _ _ b,
    let '(r, b') := reply b in
    (r_value r, λ i, nth i (r_data r) Byte.x00, b');
  iberr := b_iberr;
  ibcnt := b_ibcnt;
  ibcntl := b_ibcntl
|}.

Definition board (script : list Reply) : Board := mkBoard 0 0 0 script.

(** A world with the given board behind it and nothing else in it. *)
Definition boot (script : list Reply) : World Board :=
  mkWorld (board script) ∅ [] 0%nat.

(** A world in which one Device, at address [0], is open on [script]. *)
Definition device0 : Device := mkDevice (Derived 0 Background) 0%nat false 16.

Definition session (script : list Reply) : World Board :=
  mkWorld (board script) {[ 0%nat := device0 ]} [] 1%nat.

(** The same world after the Device has been closed. *)
Definition closed_session (script : list Reply) : World Board :=
  mkWorld (board script) {[ 0%nat := set_closed device0 true ]}
          [EvCancel 0%nat; EvIbonl 16 0] 1%nat.

(** A reply to [ibrd]: the transfer completed, [count] bytes reported. *)
Definition received (count : Z) (data : list byte) : Reply :=
  mkReply CMPL 0 0 count data.

Definition failure (code : Z) : Reply := mkReply (Z.lor ERR CMPL) code 5 0 [].

Definition RST : list byte :=
  [Byte.x2a; Byte.x52; Byte.x53; Byte.x54; Byte.x0d; Byte.x0a].

(** The scenario of the specification: open the instrument at primary
    address 13 on board 0, reset it, and close it twice. *)
Definition scenario : Go Board (option error * Z * option error
                                * option error * option error) :=
  r0 ← Open 0 13 0 None;
  r1 ← Write r0.1 RST;
  e2 ← Close r0.1;
  e3 ← Close r0.1;
  mret (r0.2, r1.1, r1.2, e2, e3).

(** * Properties *)

(** ** The status decoder *)

(** The test [s & 0x8000 == 0x8000] reads bit 15 of the status word. *)
Lemma land_bit15 (s : Z) : (Z.land s 0x8000 =? 0x8000) = Z.testbit s 15.
Proof.
  change 0x8000 with (2 ^ 15).
  destruct (Z.testbit s 15) eqn:Hbit.
  - apply Z.eqb_eq, Z.bits_inj'. intros n Hn.
    rewrite Z.land_spec, Z.pow2_bits_eqb by lia.
    destruct (Z.eqb_spec 15 n) as [<-|_]; [by rewrite Hbit | apply andb_false_r].
  - apply Z.eqb_neq. intros Heq.
    assert (Z.testbit (Z.land s (2 ^ 15)) 15 = true) as Hland
      by (rewrite Heq; apply Z.pow2_bits_true; lia).
    rewrite Z.land_spec, Hbit in Hland. discriminate.
Qed.

(** Distinct kinds have distinct Go values; two system-call kinds share
    one when their error numbers agree as [uintptr]. *)
Lemma error_of_kind_inj (k1 k2 : ErrorKind) :
  error_of_kind k1 = error_of_kind k2 →
  k1 = k2 ∨ ∃ e1 e2, k1 = SystemCall e1 ∧ k2 = SystemCall e2 ∧ uintptr e1 = uintptr e2.
Proof.
  destruct k1, k2; simpl; intros Heq; try discriminate; try (by left).
  right. eexists _, _. repeat split. congruence.
Qed.

Section Decoder_properties.
Context {lib : Type} `{!Native lib}.

Lemma Err_bit15 (s : status) (l : lib) :
  Err s l = if Z.testbit s 15 then Some (getiberr l) else None.
Proof. unfold Err. by rewrite land_bit15. Qed.

(** The [switch] of [getiberr] is the table of the specification. *)
Lemma getiberr_table (l : lib) :
  getiberr l = error_of_kind (kind_of_code (iberr l) (ibcnt l)).
Proof.
  unfold getiberr, kind_of_code. simpl.
  repeat (destruct (_ =? _); [reflexivity|]). reflexivity.
Qed.

(** Codes outside the table are exactly those that decode to [Unknown]. *)
Lemma kind_of_code_Unknown (code count : Z) :
  kind_of_code code count = Unknown ↔ code ∉ spec_table.*1.
Proof.
  unfold kind_of_code. simpl. rewrite !not_elem_of_cons.
  repeat match goal with
         | |- context [code =? ?c] =>
             destruct (Z.eqb_spec code c) as [->|?];
             [split; [done | intros ?; exfalso; intuition lia]|]
         end.
  split; [|done]. intros _. repeat split; try done. apply not_elem_of_nil.
Qed.

(** C1: a status word whose bit 15 is clear decodes to success, whatever
    its other bits and whatever the registers [iberr] and [ibcnt] hold. *)
Theorem Err_bit15_clear (s : status) (l : lib) :
  Z.testbit s 15 = false → Err s l = None.
Proof. intros Hbit. by rewrite Err_bit15, Hbit. Qed.

(** C2: a status word whose bit 15 is set decodes to the error of the
    kind that the table gives for the auxiliary code in [iberr] (the
    system-call kind carrying the byte-count register [ibcnt]), and to
    the unknown kind for a code outside the table.  [Err] is a total
    function: there is no code on which it faults. *)
Theorem Err_bit15_set (s : status) (l : lib) :
  Z.testbit s 15 = true →
  Err s l = Some (error_of_kind (kind_of_code (iberr l) (ibcnt l)))
  ∧ (iberr l ∉ spec_table.*1 → Err s l = Some (error_of_kind Unknown)).
Proof.
  intros Hbit. rewrite Err_bit15, Hbit, getiberr_table. split; [done|].
  intros Hout. apply (kind_of_code_Unknown _ (ibcnt l)) in Hout.
  by rewrite Hout.
Qed.

End Decoder_properties.

(** ** The operations, one equation each

    Each operation on a live [*Device] is computed by one native call;
    the equations below give its result and the world it leaves in terms
    of what that call answers. *)

Section Operation_equations.
Context {lib : Type} `{!Native lib}.
Implicit Types (a : loc) (d : Device) (w : World lib) (buf : list byte).

Lemma load_live a d w : heap w !! a = Some d → load (Some a) w = Returns d w.
Proof. unfold load. simpl. by intros ->. Qed.

Lemma load_dead (p : option loc) w :
  p ≫= (λ a, heap w !! a) = None → load p w = Panics nil_dereference w.
Proof. unfold load. by intros ->. Qed.

Lemma Close_eq a d w :
  heap w !! a = Some d →
  Close (Some a) w =
    if closed d then Returns None w
    else
      let '(rv, l') := ibonl (descriptor d) 0 (native w) in
      let t' := trace w ++ [EvCancel (cancel d); EvIbonl (descriptor d) 0] in
      match Err rv l' with
      | Some e => Returns (Some e) (mkWorld l' (heap w) t' (contexts w))
      | None =>
          Returns None
            (mkWorld l' (<[a := set_closed d true]> (heap w)) t' (contexts w))
      end.
Proof.
  intros Hd. unfold Close, mbind, Go_bind. rewrite (load_live _ _ _ Hd).
  destruct (closed d); [done|].
  unfold invoke, call, register, store, mret, Go_ret. simpl.
  destruct (ibonl _ _ _) as [rv l']. simpl. rewrite <-app_assoc. simpl.
  destruct (Err rv l'); [done|]. simpl. by rewrite Hd.
Qed.

Lemma Local_eq a d w :
  heap w !! a = Some d →
  Local (Some a) w =
    let '(rv, l') := ibloc (descriptor d) (native w) in
    Returns (Err rv l')
      (mkWorld l' (heap w) (trace w ++ [EvIbloc (descriptor d)]) (contexts w)).
Proof.
  intros Hd. unfold Local, mbind, Go_bind. rewrite (load_live _ _ _ Hd).
  unfold call, register. by destruct (ibloc _ _) as [rv l'].
Qed.

Lemma Write_eq a d w buf :
  heap w !! a = Some d →
  Write (Some a) buf w =
    let n := C_long (Z.of_nat (length buf)) in
    let '(rv, l') := ibwrt (descriptor d) buf n (native w) in
    let w' := mkWorld l' (heap w) (trace w ++ [EvIbwrt (descriptor d) buf n])
                      (contexts w) in
    match Err rv l' with
    | Some e => Returns (0, Some e) w'
    | None => Returns (Z.of_nat (length buf), None) w'
    end.
Proof.
  intros Hd. unfold Write, mbind, Go_bind. rewrite (load_live _ _ _ Hd).
  unfold call, register. destruct (ibwrt _ _ _ _) as [rv l']. simpl.
  by destruct (Err rv l').
Qed.

Lemma Read_eq a d w buf :
  heap w !! a = Some d →
  Read (Some a) buf w =
    let n := C_long (C_size_t (Z.of_nat (length buf))) in
    let '(rv, cbuf, l') := ibrd (descriptor d) n (native w) in
    let w' := mkWorld l' (heap w) (trace w ++ [EvIbrd (descriptor d) n])
                      (contexts w) in
    match Err rv l' with
    | Some e => Returns (buf, 0, Some e) w'
    | None =>
        let leng := C_int (ibcntl l') in
        if leng <? 0 then
          Panics "runtime error: gobytes: length out of range" w'
        else if C_size_t (Z.of_nat (length buf)) <? leng then Undefined w'
        else
          let bytes := cbuf <$> seq 0 (Z.to_nat leng) in
          Returns ((copy buf bytes).1, (copy buf bytes).2, None) w'
    end.
Proof.
  intros Hd. unfold Read, mbind, Go_bind. rewrite (load_live _ _ _ Hd).
  unfold call, register. destruct (ibrd _ _ _) as [[rv cbuf] l']. simpl.
  destruct (Err rv l'); [done|]. unfold GoBytes, undefined. simpl.
  destruct (_ <? 0); [done|]. by destruct (_ <? _).
Qed.

Lemma Open_eq (board pad sad : Z) (opts : option Options) w :
  Open board pad sad opts w =
    let parent := Options_context opts in
    let id := contexts w in
    let '(desc, l') :=
      ibdev (C_int board) (C_int pad) (C_int sad) 0 0 0 (native w) in
    let t' := trace w ++ [EvWithCancel id parent;
                          EvIbdev (C_int board) (C_int pad) (C_int sad)] in
    if desc =? -1 then
      Returns (None, Some OpenError) (mkWorld l' (heap w) t' (S id))
    else
      let a := fresh (dom (heap w)) in
      Returns (Some a, None)
        (mkWorld l' (<[a := mkDevice (Derived id parent) id false desc]> (heap w))
                 t' (S id)).
Proof.
  unfold Open, mbind, Go_bind, WithCancel, call. simpl.
  destruct (ibdev _ _ _ _ _ _ _) as [desc l']. simpl.
  rewrite <-app_assoc. simpl. by destruct (desc =? -1).
Qed.

(** On a pointer that is [nil] or dangling every method panics before
    it does anything. *)
Lemma step_dead (p : option loc) (o : op) w :
  p ≫= (λ a, heap w !! a) = None → step p o w = Panics nil_dereference w.
Proof.
  intros Hp. destruct o; simpl;
    unfold Close, Local, Write, Read, mbind, Go_bind;
    by rewrite (load_dead _ _ Hp).
Qed.

End Operation_equations.

(** ** Lifecycle: Close, Local and Open *)

Section Lifecycle_properties.
Context {lib : Type} `{!Native lib}.
Implicit Types (a : loc) (d : Device) (w : World lib) (buf : list byte).

Lemma live_or_dead (p : option loc) w :
  (∃ a d, p = Some a ∧ heap w !! a = Some d) ∨ p ≫= (λ a, heap w !! a) = None.
Proof.
  destruct p as [a|]; [|by right]. simpl.
  destruct (heap w !! a) as [d|] eqn:Hd; [left; eauto | by right].
Qed.

(** C3: on a Device whose closed flag is set, Close returns nil and
    leaves the world as it found it: the trace gains no event, so there
    is no second native release (and no cancel), and the Device in the
    heap is the one that was there. *)
Theorem Close_idempotent a d w :
  heap w !! a = Some d → closed d = true →
  Close (Some a) w = Returns None w
  ∧ release_count (trace (world_of (Close (Some a) w))) = release_count (trace w)
  ∧ heap (world_of (Close (Some a) w)) !! a = Some d.
Proof.
  intros Hd Hclosed. rewrite (Close_eq _ _ _ Hd), Hclosed. by simpl.
Qed.

(** A Close that returned nil left the Device closed, so calling Close
    again returns nil once more and changes nothing. *)
Lemma Close_twice (p : option loc) w w' :
  Close p w = Returns None w' → Close p w' = Returns None w'.
Proof.
  destruct (live_or_dead p w) as [(a & d & -> & Hd)|Hdead].
  - rewrite (Close_eq _ _ _ Hd).
    destruct (closed d) eqn:Hclosed.
    + intros [= <-]. by rewrite (Close_eq _ _ _ Hd), Hclosed.
    + destruct (ibonl _ _ _) as [rv l']. simpl.
      destruct (Err rv l'); [done|]. intros [= <-].
      by rewrite (Close_eq a (set_closed d true)) by apply lookup_insert_eq.
  - unfold Close, mbind, Go_bind. by rewrite (load_dead _ _ Hdead).
Qed.

(** Close sets the flag of an open Device exactly when it returns nil,
    that is, when the release decoded to success. *)
Lemma Close_closes_iff_nil (p : option loc) w (r : option error) w1 :
  is_closed p w = false → Close p w = Returns r w1 →
  is_closed p w1 = true ↔ r = None.
Proof.
  destruct (live_or_dead p w) as [(a & d & -> & Hd)|Hdead].
  - rewrite (Close_eq _ _ _ Hd). unfold is_closed. simpl. rewrite Hd.
    intros Hopen. rewrite Hopen. destruct (ibonl _ _ _) as [rv l']. simpl.
    destruct (Err rv l'); intros ?; simplify_eq; simpl.
    + rewrite Hd, Hopen. naive_solver.
    + by rewrite lookup_insert_eq.
  - unfold Close, mbind, Go_bind. by rewrite (load_dead _ _ Hdead).
Qed.

(** C4: when the native release of an open Device answers a status
    word that decodes to an error, Close returns that error and leaves
    the Device as it was, its closed flag still false; the next Close
    therefore cancels and calls the native release again.  Whatever
    the release answers, a Close of an open Device sets the flag
    exactly when it returns nil. *)
Theorem Close_failure_retries a d w (rv : Z) (l' : lib) (e : error) :
  heap w !! a = Some d → closed d = false →
  ibonl (descriptor d) 0 (native w) = (rv, l') →
  Err rv l' = Some e →
  let attempt := [EvCancel (cancel d); EvIbonl (descriptor d) 0] in
  let w' := mkWorld l' (heap w) (trace w ++ attempt) (contexts w) in
  Close (Some a) w = Returns (Some e) w'
  ∧ heap w' !! a = Some d
  ∧ is_closed (Some a) w' = false
  ∧ trace (world_of (Close (Some a) w')) = trace w' ++ attempt
  ∧ (∀ w0 (r : option error) w1,
       is_closed (Some a) w0 = false → Close (Some a) w0 = Returns r w1 →
       is_closed (Some a) w1 = true ↔ r = None).
Proof.
  intros Hd Hopen Hrel Herr attempt w'.
  rewrite (Close_eq _ _ _ Hd), Hopen, Hrel. simpl. rewrite Herr.
  split_and!; [done|done| | |apply Close_closes_iff_nil].
  - unfold is_closed. simpl. by rewrite Hd.
  - rewrite (Close_eq a d w') by done. rewrite Hopen.
    simpl. destruct (ibonl (descriptor d) 0 l') as [rv2 l2].
    by destruct (Err rv2 l2).
Qed.

(** C9: Local makes one native call, [ibloc] on the descriptor, returns
    what the decoder makes of its status word, and leaves the heap, and
    so every field of the Device, as it was. *)
Theorem Local_decodes_and_frames a d w :
  heap w !! a = Some d →
  let '(rv, l') := ibloc (descriptor d) (native w) in
  Local (Some a) w =
    Returns (Err rv l')
      (mkWorld l' (heap w) (trace w ++ [EvIbloc (descriptor d)]) (contexts w))
  ∧ heap (world_of (Local (Some a) w)) = heap w.
Proof.
  intros Hd. rewrite (Local_eq _ _ _ Hd).
  by destruct (ibloc _ _) as [rv l'].
Qed.

(** No status word decodes to the error of Open. *)
Lemma Err_not_OpenError (s : status) (l : lib) : Err s l ≠ Some OpenError.
Proof.
  rewrite Err_bit15. destruct (Z.testbit s 15); [|done].
  rewrite getiberr_table. by destruct (kind_of_code _ _).
Qed.

(** C8: Open derives the lifecycle context from the base context of
    the options, or from the background context when the options or
    their base context are absent, and calls [ibdev].  When [ibdev]
    answers -1, Open returns no Device and [OpenError], an error that
    the status decoder never produces; otherwise it returns a new
    Device holding the descriptor, with its closed flag false. *)
Theorem Open_result (board pad sad : Z) (opts : option Options) w :
  let parent :=
    match opts with
    | Some {| BaseContext := Some c |} => c
    | _ => Background
    end in
  let id := contexts w in
  let '(desc, l') :=
    ibdev (C_int board) (C_int pad) (C_int sad) 0 0 0 (native w) in
  let t' := trace w ++ [EvWithCancel id parent;
                        EvIbdev (C_int board) (C_int pad) (C_int sad)] in
  (∀ (s : status) (l : lib), Err s l ≠ Some OpenError)
  ∧ if desc =? -1 then
      Open board pad sad opts w =
        Returns (None, Some OpenError) (mkWorld l' (heap w) t' (S id))
    else
      ∃ a,
        heap w !! a = None
        ∧ Open board pad sad opts w =
            Returns (Some a, None)
              (mkWorld l'
                 (<[a := mkDevice (Derived id parent) id false desc]> (heap w))
                 t' (S id))
        ∧ is_closed (Some a) (world_of (Open board pad sad opts w)) = false.
Proof.
  intros parent id. rewrite Open_eq.
  assert (Options_context opts = parent) as ->
    by (by destruct opts as [[[c|]]|]).
  destruct (ibdev _ _ _ _ _ _ _) as [desc l']. simpl.
  split; [apply Err_not_OpenError|].
  destruct (desc =? -1); [done|].
  exists (fresh (dom (heap w))). split_and!; [|done|].
  - apply not_elem_of_dom, is_fresh.
  - unfold is_closed. simpl. by rewrite lookup_insert_eq.
Qed.

End Lifecycle_properties.

(** ** Transfers: Write and Read *)

Section Transfer_properties.
Context {lib : Type} `{!Native lib}.
Implicit Types (a : loc) (d : Device) (w : World lib) (buf : list byte).

Lemma Write_dead (p : option loc) buf w :
  p ≫= (λ a, heap w !! a) = None → Write p buf w = Panics nil_dereference w.
Proof. intros Hp. unfold Write, mbind, Go_bind. by rewrite (load_dead _ _ Hp). Qed.

Lemma Read_dead (p : option loc) buf w :
  p ≫= (λ a, heap w !! a) = None → Read p buf w = Panics nil_dereference w.
Proof. intros Hp. unfold Read, mbind, Go_bind. by rewrite (load_dead _ _ Hp). Qed.

(** Write on a live Device always returns. *)
Lemma Write_returns a d w buf :
  heap w !! a = Some d → ∃ r w', Write (Some a) buf w = Returns r w'.
Proof.
  intros Hd. rewrite (Write_eq _ _ _ _ Hd). cbv zeta.
  destruct (ibwrt _ _ _ _) as [rv l']. simpl. destruct (Err rv l'); eauto.
Qed.

(** C6: when Write returns a nil error, the count it returns is the
    length of the buffer; a short count is never returned with nil. *)
Theorem Write_nil_full_count (p : option loc) buf w (n : Z) w' :
  Write p buf w = Returns (n, None) w' → n = Z.of_nat (length buf).
Proof.
  destruct (live_or_dead p w) as [(a & d & -> & Hd)|Hdead].
  - rewrite (Write_eq _ _ _ _ Hd). cbv zeta.
    destruct (ibwrt _ _ _ _) as [rv l']. simpl.
    destruct (Err rv l'); congruence.
  - by rewrite (Write_dead _ _ _ Hdead).
Qed.

(** C10: when Write or Read returns an error, the count returned with
    it is 0, and the heap, so every field of the Device, is as before;
    Read also hands the caller's buffer back untouched. *)
Theorem transfer_error_zero_count (p : option loc) buf w :
  (∀ (n : Z) (e : error) w',
      Write p buf w = Returns (n, Some e) w' → n = 0 ∧ heap w' = heap w)
  ∧ (∀ (buf' : list byte) (n : Z) (e : error) w',
      Read p buf w = Returns (buf', n, Some e) w' →
      n = 0 ∧ heap w' = heap w ∧ buf' = buf).
Proof.
  destruct (live_or_dead p w) as [(a & d & -> & Hd)|Hdead].
  - split.
    + intros n e w'. rewrite (Write_eq _ _ _ _ Hd). cbv zeta.
      destruct (ibwrt _ _ _ _) as [rv l']. simpl.
      destruct (Err rv l'); intros [= <- <- <-]; done.
    + intros buf' n e w'. rewrite (Read_eq _ _ _ _ Hd). cbv zeta.
      destruct (ibrd _ _ _) as [[rv cbuf] l']. simpl.
      destruct (Err rv l'); [by intros [= <- <- <- <-]|].
      (destruct (_ <? 0); [done|]; by destruct (_ <? _)).
  - rewrite (Write_dead _ _ _ Hdead), (Read_dead _ _ _ Hdead). done.
Qed.

(** Neither transfer touches the heap, whatever its outcome. *)
Lemma transfer_frames (p : option loc) buf w :
  heap (world_of (Write p buf w)) = heap w
  ∧ heap (world_of (Read p buf w)) = heap w.
Proof.
  destruct (live_or_dead p w) as [(a & d & -> & Hd)|Hdead].
  - rewrite (Write_eq _ _ _ _ Hd), (Read_eq _ _ _ _ Hd). cbv zeta.
    destruct (ibwrt _ _ _ _) as [rv l'], (ibrd _ _ _) as [[rv2 cbuf] l2].
    simpl. destruct (Err rv l'), (Err rv2 l2); try done;
      (destruct (_ <? 0); [done|]; by destruct (_ <? _)).
  - by rewrite (Write_dead _ _ _ Hdead), (Read_dead _ _ _ Hdead).
Qed.

(** [copy] moves the first [min (len dst) (len src)] bytes. *)
Lemma copy_spec (dst src : list byte) :
  let n := (length dst `min` length src)%nat in
  (copy dst src).2 = Z.of_nat n
  ∧ take n (copy dst src).1 = take n src
  ∧ drop n (copy dst src).1 = drop n dst
  ∧ length (copy dst src).1 = length dst.
Proof.
  unfold copy. simpl. split_and!; [done| | |].
  - rewrite take_app_le by (rewrite length_take; lia).
    by rewrite take_take, Nat.min_id.
  - rewrite drop_app_length'; [done|]. rewrite length_take. lia.
  - rewrite length_app, length_take, length_drop. lia.
Qed.

(** A count that fits a non-negative C int passes [C.int] unchanged. *)
Lemma C_int_small (n : Z) : 0 ≤ n < 2 ^ 31 → C_int n = n.
Proof.
  intros Hn. unfold C_int, wrap_signed.
  change (2 ^ (32 - 1)) with 2147483648. change (2 ^ 32) with 4294967296.
  change (2 ^ 31) with 2147483648 in Hn.
  rewrite Z.mod_small; lia.
Qed.

(** C7, as the code has it.  When the status of the native transfer
    decodes to success and the byte count in [ibcntl] fits a
    non-negative C int, Read does what the claim says only while the
    count does not exceed [len buf]: it copies that many bytes from the
    native buffer over the start of the caller's and returns the count
    without error.  A count above [len buf] is not clamped before
    [C.GoBytes]: the call reads that many bytes from the allocation of
    [len buf] bytes, past its end, and Read does not return
    [len buf]. *)
Theorem Read_within_or_past_buffer a d w buf (rv : Z) (held : nat → byte)
    (l' : lib) :
  heap w !! a = Some d →
  Z.of_nat (length buf) < 2 ^ 63 →
  ibrd (descriptor d) (C_long (C_size_t (Z.of_nat (length buf)))) (native w)
    = (rv, held, l') →
  Err rv l' = None →
  0 ≤ ibcntl l' < 2 ^ 31 →
  let n := ibcntl l' in
  let w' := mkWorld l' (heap w)
              (trace w ++ [EvIbrd (descriptor d)
                             (C_long (C_size_t (Z.of_nat (length buf))))])
              (contexts w) in
  (n ≤ Z.of_nat (length buf) →
   Read (Some a) buf w =
     Returns ((held <$> seq 0 (Z.to_nat n)) ++ drop (Z.to_nat n) buf, n, None) w')
  ∧ (Z.of_nat (length buf) < n → Read (Some a) buf w = Undefined w').
Proof.
  intros Hd Hlen Hrd Herr Hcnt n w'.
  assert (C_size_t (Z.of_nat (length buf)) = Z.of_nat (length buf)) as Hsize.
  { unfold C_size_t, wrap_unsigned. change (2 ^ 64) with 18446744073709551616.
    change (2 ^ 63) with 9223372036854775808 in Hlen.
    apply Z.mod_small. lia. }
  subst w'. rewrite (Read_eq _ _ _ _ Hd). cbv zeta. rewrite Hrd. simpl.
  rewrite Herr, (C_int_small _ Hcnt), !Hsize. fold n.
  destruct (Z.ltb_spec n 0) as [?|_]; [unfold n in *; lia|].
  destruct (Z.ltb_spec (Z.of_nat (length buf)) n) as [Hpast|Hwithin].
  - split; [lia|done].
  - split; [intros _|lia].
    unfold copy. simpl. rewrite length_fmap, length_seq.
    replace (length buf `min` Z.to_nat n)%nat with (Z.to_nat n) by lia.
    rewrite take_ge by (rewrite length_fmap, length_seq; lia).
    do 3 f_equal. lia.
Qed.

End Transfer_properties.

(** ** The cancel function over a sequence of operations *)

Section Cancel_properties.
Context {lib : Type} `{!Native lib}.
Implicit Types (a : loc) (d : Device) (w : World lib) (buf : list byte).
Local Open Scope nat_scope.

Lemma cancel_count_app (t1 t2 : list event) :
  cancel_count (t1 ++ t2) = cancel_count t1 + cancel_count t2.
Proof. unfold cancel_count. by rewrite List.filter_app, length_app. Qed.

Lemma release_count_app (t1 t2 : list event) :
  release_count (t1 ++ t2) = release_count t1 + release_count t2.
Proof. unfold release_count. by rewrite List.filter_app, length_app. Qed.

Ltac finish := split_and!; first [done | lia | by intuition lia].

Ltac count_events :=
  rewrite ?cancel_count_app, ?release_count_app;
  unfold cancel_count, release_count; simpl.

(** What one operation adds: a cancel for a Close that finds the Device
    open, which then either fails or closes the Device, each cancel
    followed by a release; nothing for any other operation, and nothing
    on a closed Device, whose flag is never cleared. *)
Lemma step_cancels (p : option loc) (o : op) w :
  let w1 := world_of (step p o w) in
  let failed :=
    match step p o w with
    | Returns r _ => if failed_close (o, r) then 1 else 0
    | Panics _ _ => 0
    | Undefined _ => 0
    end in
  cancel_count (trace w1) =
    cancel_count (trace w) + failed + (if newly_closed p w w1 then 1 else 0)
  ∧ cancel_count (trace w1) + release_count (trace w) =
      release_count (trace w1) + cancel_count (trace w)
  ∧ (is_closed p w = true → is_closed p w1 = true ∧ failed = 0).
Proof.
  destruct (live_or_dead p w) as [(a & d & -> & Hd)|Hdead].
  - destruct o; simpl; unfold mbind, Go_bind, newly_closed, is_closed; simpl.
    + rewrite (Close_eq _ _ _ Hd), Hd.
      destruct (closed d) eqn:Hclosed; simpl.
      { rewrite Hd, Hclosed. simpl. finish. }
      destruct (ibonl _ _ _) as [rv l']. simpl.
      destruct (Err rv l'); simpl;
        rewrite ?Hd, ?Hclosed, ?lookup_insert_eq; count_events;
        finish.
    + rewrite (Local_eq _ _ _ Hd), Hd.
      destruct (ibloc _ _) as [rv l']. simpl. rewrite Hd. count_events.
      destruct (Err rv l'), (closed d); simpl; finish.
    + rewrite (Write_eq _ _ _ _ Hd), Hd. cbv zeta.
      destruct (ibwrt _ _ _ _) as [rv l']. simpl.
      destruct (Err rv l'); simpl; rewrite Hd; count_events;
        destruct (closed d); simpl; finish.
    + rewrite (Read_eq _ _ _ _ Hd), Hd. cbv zeta.
      destruct (ibrd _ _ _) as [[rv cbuf] l']. simpl.
      destruct (Err rv l'); [|destruct (_ <? 0)%Z; [|destruct (_ <? _)%Z]]; simpl;
        rewrite Hd; count_events;
        destruct (closed d); simpl; finish.
  - rewrite (step_dead _ _ _ Hdead). simpl. unfold newly_closed.
    destruct (is_closed p w); simpl; finish.
Qed.

Lemma failed_closes_cons (entry : op * option error) log :
  failed_closes (entry :: log) =
    (if failed_close entry then 1 else 0) + failed_closes log.
Proof. unfold failed_closes. simpl. by destruct (failed_close entry). Qed.

Lemma run_cancels (p : option loc) (ops : list op) w :
  let log := (run p ops w).1 in
  let w' := (run p ops w).2 in
  cancel_count (trace w') =
    cancel_count (trace w) + failed_closes log
    + (if newly_closed p w w' then 1 else 0)
  ∧ cancel_count (trace w') + release_count (trace w) =
      release_count (trace w') + cancel_count (trace w)
  ∧ (is_closed p w = true → is_closed p w' = true ∧ failed_closes log = 0).
Proof.
  revert w. induction ops as [|o ops IH]; intros w; cbn [run fst snd].
  - unfold newly_closed, failed_closes.
    destruct (is_closed p w); simpl; finish.
  - pose proof (step_cancels p o w) as Hstep. cbv zeta in Hstep.
    destruct (step p o w) as [r w1|msg w1|w1]; cbn [world_of] in Hstep.
    + specialize (IH w1). cbv zeta in IH.
      destruct (run p ops w1) as [log w2]. cbn [fst snd] in *.
      rewrite failed_closes_cons.
      destruct Hstep as (Hc1 & Hr1 & Hm1), IH as (Hc2 & Hr2 & Hm2).
      unfold newly_closed in *.
      destruct (failed_close (o, r));
        destruct (is_closed p w), (is_closed p w1), (is_closed p w2);
        cbn [negb andb] in *;
        try (destruct (Hm1 eq_refl) as [? ?]);
        try (destruct (Hm2 eq_refl) as [? ?]);
        try discriminate; finish.
    + cbn [fst snd]. destruct Hstep as (Hc1 & Hr1 & Hm1).
      change (failed_closes []) with 0.
      finish.
    + cbn [fst snd]. destruct Hstep as (Hc1 & Hr1 & Hm1).
      change (failed_closes []) with 0.
      finish.
Qed.

(** C5, as the code has it: over every sequence of Close, Local, Write
    and Read on a Device, the cancel function is invoked only by Close,
    once by each Close that finds the Device open.  The number of
    invocations is therefore the number of Close calls that returned
    an error, plus one if the sequence closed the Device; it is at
    most one when no Close fails, none on a Device that is closed, and
    it equals the number of native releases attempted. *)
Theorem cancel_once_per_open_Close (p : option loc) (ops : list op) w :
  let log := (run p ops w).1 in
  let w' := (run p ops w).2 in
  cancel_count (trace w') =
    cancel_count (trace w) + failed_closes log
    + (if newly_closed p w w' then 1 else 0)
  ∧ cancel_count (trace w') + release_count (trace w) =
      release_count (trace w') + cancel_count (trace w)
  ∧ (failed_closes log = 0 → cancel_count (trace w') ≤ cancel_count (trace w) + 1)
  ∧ (is_closed p w = true → cancel_count (trace w') = cancel_count (trace w)).
Proof.
  intros log w'. destruct (run_cancels p ops w) as (Hc & Hr & Hm).
  fold log w' in Hc, Hr, Hm. split_and!; [done|done| |].
  - intros Hnone. rewrite Hc, Hnone. destruct (newly_closed p w w'); lia.
  - intros Hclosed. destruct (Hm Hclosed) as [_ Hnone].
    rewrite Hc, Hnone. unfold newly_closed. rewrite Hclosed. simpl. lia.
Qed.

End Cancel_properties.

(** ** Runs on the simulated board *)

(** The scenario of the specification: Open succeeds, Write reports the
    six bytes of the reset command, both Close calls return nil, and the
    native release is called once. *)
Example scenario_runs :
  ∃ w, scenario (boot [mkReply 16 0 0 0 []]) = Returns (None, 6, None, None, None) w
       ∧ release_count (trace w) = 1%nat
       ∧ cancel_count (trace w) = 1%nat.
Proof. eexists. split; [vm_compute; reflexivity|]. by vm_compute. Qed.

(** Codes 2 and 14 on a failed call, and some codes outside the table. *)
Example decode_NoListeners :
  Err (Z.lor ERR CMPL) (mkBoard 2 0 0 []) = Some (error_of_kind NoListeners).
Proof. reflexivity. Qed.

Example decode_Timeout :
  Err (Z.lor ERR CMPL) (mkBoard 14 0 0 []) = Some (error_of_kind Timeout).
Proof. reflexivity. Qed.

Example decode_SystemCall :
  Err ERR (mkBoard 12 5 0 []) = Some (Errno 5).
Proof. reflexivity. Qed.

Example decode_Unknown :
  Forall (λ code, Err ERR (mkBoard code 0 0 []) = Some (error_of_kind Unknown))
         [-1; 8; 9; 13; 17; 255].
Proof. repeat constructor. Qed.

Lemma Err_bit15_clear_witness :
  Z.testbit 0x2100 15 = false ∧ Err 0x2100 (mkBoard 2 5 0 []) = None.
Proof.
  split; [reflexivity|].
  apply (Err_bit15_clear 0x2100 (mkBoard 2 5 0 [])). reflexivity.
Defined.

Lemma Err_bit15_set_witness :
  Z.testbit 0x8100 15 = true
  ∧ Err 0x8100 (mkBoard 2 5 0 []) = Some (error_of_kind NoListeners).
Proof.
  split; [reflexivity|].
  exact (proj1 (Err_bit15_set 0x8100 (mkBoard 2 5 0 []) eq_refl)).
Defined.

Lemma Close_idempotent_witness :
  heap (closed_session []) !! 0%nat = Some (set_closed device0 true)
  ∧ Close (Some 0%nat) (closed_session []) = Returns None (closed_session [])
  ∧ release_count (trace (world_of (Close (Some 0%nat) (closed_session []))))
    = release_count (trace (closed_session []))
  ∧ heap (world_of (Close (Some 0%nat) (closed_session []))) !! 0%nat
    = Some (set_closed device0 true).
Proof.
  split; [reflexivity|].
  apply (Close_idempotent 0%nat (set_closed device0 true) (closed_session []));
    reflexivity.
Defined.

Lemma Close_failure_retries_witness :
  let w := session [failure 2] in
  let w' := mkWorld (mkBoard 2 5 0 []) (heap w)
                    [EvCancel 0%nat; EvIbonl 16 0] 1%nat in
  heap w !! 0%nat = Some device0
  ∧ closed device0 = false
  ∧ ibonl 16 0 (native w) = (Z.lor ERR CMPL, mkBoard 2 5 0 [])
  ∧ Err (Z.lor ERR CMPL) (mkBoard 2 5 0 []) = Some (error_of_kind NoListeners)
  ∧ Close (Some 0%nat) w = Returns (Some (error_of_kind NoListeners)) w'
  ∧ is_closed (Some 0%nat) w' = false
  ∧ trace (world_of (Close (Some 0%nat) w'))
    = [EvCancel 0%nat; EvIbonl 16 0; EvCancel 0%nat; EvIbonl 16 0].
Proof.
  intros w w'.
  assert (heap w !! 0%nat = Some device0) as Hd by reflexivity.
  assert (ibonl 16 0 (native w) = (Z.lor ERR CMPL, mkBoard 2 5 0 [])) as Hrel
    by reflexivity.
  assert (Err (Z.lor ERR CMPL) (mkBoard 2 5 0 [])
          = Some (error_of_kind NoListeners)) as Herr by reflexivity.
  destruct (Close_failure_retries 0%nat device0 w (Z.lor ERR CMPL)
              (mkBoard 2 5 0 []) (error_of_kind NoListeners)
              Hd eq_refl Hrel Herr) as (Hret & _ & Hopen & Hnext & _).
  split_and!; [exact Hd | reflexivity | exact Hrel | exact Herr
              | exact Hret | exact Hopen | exact Hnext].
Defined.

Lemma Local_decodes_and_frames_witness :
  heap (session [failure 1]) !! 0%nat = Some device0
  ∧ Local (Some 0%nat) (session [failure 1])
    = Returns (Some (error_of_kind NotControllerInCharge))
        (mkWorld (mkBoard 1 5 0 []) (heap (session [failure 1])) [EvIbloc 16] 1%nat)
  ∧ heap (world_of (Local (Some 0%nat) (session [failure 1])))
    = heap (session [failure 1]).
Proof.
  split; [reflexivity|].
  exact (Local_decodes_and_frames 0%nat device0 (session [failure 1]) eq_refl).
Defined.

Lemma Open_result_witness :
  (∀ (s : status) (l : Board), Err s l ≠ Some OpenError)
  ∧ Open 0 13 0 None (boot [mkReply (-1) 0 0 0 []])
    = Returns (None, Some OpenError)
        (mkWorld (board []) ∅ [EvWithCancel 0 Background; EvIbdev 0 13 0] 1%nat).
Proof.
  exact (Open_result 0 13 0 None (boot [mkReply (-1) 0 0 0 []])).
Defined.

Lemma Write_nil_full_count_witness :
  Write (Some 0%nat) RST (session [])
  = Returns (6, None) (world_of (Write (Some 0%nat) RST (session [])))
  ∧ 6 = Z.of_nat (length RST).
Proof.
  split; [reflexivity|].
  apply (Write_nil_full_count (Some 0%nat) RST (session []) 6
           (world_of (Write (Some 0%nat) RST (session [])))).
  reflexivity.
Defined.

Lemma transfer_error_zero_count_witness :
  let w := session [failure 2] in
  let buf := replicate 8 Byte.x00 in
  (Write (Some 0%nat) RST w
   = Returns (0, Some (error_of_kind NoListeners))
       (world_of (Write (Some 0%nat) RST w))
   ∧ 0 = 0 ∧ heap (world_of (Write (Some 0%nat) RST w)) = heap w)
  ∧ (Read (Some 0%nat) buf w
     = Returns (buf, 0, Some (error_of_kind NoListeners))
         (world_of (Read (Some 0%nat) buf w))
     ∧ 0 = 0 ∧ heap (world_of (Read (Some 0%nat) buf w)) = heap w ∧ buf = buf).
Proof.
  intros w buf. split.
  - split; [reflexivity|].
    apply (proj1 (transfer_error_zero_count (Some 0%nat) RST w)
             0 (error_of_kind NoListeners)). reflexivity.
  - split; [reflexivity|].
    apply (proj2 (transfer_error_zero_count (Some 0%nat) buf w)
             buf 0 (error_of_kind NoListeners)). reflexivity.
Defined.

Lemma Read_within_or_past_buffer_witness :
  let w := session [received 131072 RST] in
  let buf := replicate 8 Byte.x00 in
  heap w !! 0%nat = Some device0
  ∧ Z.of_nat (length buf) < 2 ^ 63
  ∧ ibrd (descriptor device0) (C_long (C_size_t (Z.of_nat (length buf))))
         (native w)
    = (CMPL, λ i, nth i RST Byte.x00, mkBoard 0 0 131072 [])
  ∧ Err CMPL (mkBoard 0 0 131072 []) = None
  ∧ 0 ≤ 131072 < 2 ^ 31
  ∧ Z.of_nat (length buf) < 131072
  ∧ Read (Some 0%nat) buf w
    = Undefined (mkWorld (mkBoard 0 0 131072 []) (heap w) [EvIbrd 16 8] 1%nat).
Proof.
  intros w buf.
  assert (heap w !! 0%nat = Some device0) as Hd by reflexivity.
  assert (Z.of_nat (length buf) < 2 ^ 63) as Hlen by (simpl; lia).
  assert (ibrd (descriptor device0)
               (C_long (C_size_t (Z.of_nat (length buf)))) (native w)
          = (CMPL, λ i, nth i RST Byte.x00, mkBoard 0 0 131072 [])) as Hrd
    by (vm_compute; reflexivity).
  assert (Err CMPL (mkBoard 0 0 131072 []) = None) as Herr by reflexivity.
  assert (0 ≤ 131072 < 2 ^ 31) as Hcnt by lia.
  assert (Z.of_nat (length buf) < 131072) as Hpast by (simpl; lia).
  split_and!; [exact Hd | exact Hlen | exact Hrd | exact Herr | lia | lia
              | exact Hpast |].
  exact (proj2 (Read_within_or_past_buffer 0%nat device0 w buf CMPL _ _
                  Hd Hlen Hrd Herr Hcnt) Hpast).
Defined.

(** A count within the buffer: six bytes arrive in a buffer of eight. *)
Example Read_within_buffer :
  Read (Some 0%nat) (replicate 8 Byte.xff) (session [received 6 RST])
  = Returns (RST ++ [Byte.xff; Byte.xff], 6, None)
      (mkWorld (mkBoard 0 0 6 []) (heap (session [])) [EvIbrd 16 8] 1%nat).
Proof. vm_compute. reflexivity. Qed.

Lemma cancel_once_per_open_Close_witness :
  let ops := [OpWrite RST; OpClose; OpLocal; OpClose] in
  let w := session [] in
  failed_closes (run (Some 0%nat) ops w).1 = 0%nat
  ∧ (cancel_count (trace (run (Some 0%nat) ops w).2) ≤ cancel_count (trace w) + 1)%nat.
Proof.
  intros ops w. split; [reflexivity|].
  apply (cancel_once_per_open_Close (Some 0%nat) ops w). reflexivity.
Defined.

(** C5 as stated fails: a Close whose release fails has already invoked
    the cancel function, and the retry invokes it again. *)
Lemma cancel_invoked_again_on_retry :
  cancel_count (trace (run (Some 0%nat) [OpClose; OpClose] (session [failure 2])).2)
  = 2%nat
  ∧ ¬ (∀ (lib : Type) (N : Native lib) (p : option loc) (ops : list op)
         (w : World lib),
         (cancel_count (trace (run p ops w).2) ≤ cancel_count (trace w) + 1)%nat).
Proof.
  split; [reflexivity|]. intros Hclaim.
  specialize (Hclaim Board _ (Some 0%nat) [OpClose; OpClose] (session [failure 2])).
  vm_compute in Hclaim. lia.
Qed.

(** The count is also cut to a C int before [C.GoBytes] sees it: with
    8 bytes of room and a reported count of 2^32 + 5, [C.int] leaves 5,
    and Read returns 5 where the minimum is 8. *)
Lemma Read_count_truncated_to_C_int :
  (∃ buf' w',
     Read (Some 0%nat) (replicate 8 Byte.x00) (session [received (2 ^ 32 + 5) RST])
     = Returns (buf', 5, None) w')
  ∧ ¬ (∀ (lib : Type) (N : Native lib) (a : loc) (d : Device) (w : World lib)
         (buf : list byte) (rv : Z) (cbuf : nat → byte) (l' : lib),
         heap w !! a = Some d →
         ibrd (descriptor d) (C_long (C_size_t (Z.of_nat (length buf)))) (native w)
           = (rv, cbuf, l') →
         Err rv l' = None →
         ∃ buf' w',
           Read (Some a) buf w
           = Returns (buf', Z.of_nat (length buf) `min` ibcntl l', None) w').
Proof.
  split; [eexists _, _; vm_compute; reflexivity|]. intros Hclaim.
  assert (ibrd 16 8 (native (session [received (2 ^ 32 + 5) RST]))
          = (CMPL, λ i, nth i RST Byte.x00, mkBoard 0 0 (2 ^ 32 + 5) []))
    as Hrd by (vm_compute; reflexivity).
  destruct (Hclaim Board _ 0%nat device0 (session [received (2 ^ 32 + 5) RST])
              (replicate 8 Byte.x00) CMPL (λ i, nth i RST Byte.x00)
              (mkBoard 0 0 (2 ^ 32 + 5) []) eq_refl Hrd eq_refl)
    as (buf' & w' & Hread).
  vm_compute in Hread. discriminate Hread.
Qed.

(** A negative count makes [C.GoBytes] panic: Read does not return. *)
Example Read_negative_count_panics :
  ∃ w', Read (Some 0%nat) (replicate 8 Byte.x00) (session [received (-1) RST])
        = Panics "runtime error: gobytes: length out of range" w'.
Proof. eexists. vm_compute. reflexivity. Qed.

(** * Further properties of the package *)

(** ** The decoder *)

Section Decoder_further.
Context {lib : Type} `{!Native lib}.

(** X1: [Err] returns nil exactly when bit 15 of the status word is
    clear: a status with the bit set is never decoded as success, also
    not when the code is 0 and the byte count is 0, since a
    [syscall.Errno] of 0 is still a non-nil [error]. *)
Theorem Err_nil_iff_bit15_clear (s : status) (l : lib) :
  Err s l = None ↔ Z.testbit s 15 = false.
Proof.
  rewrite Err_bit15. destruct (Z.testbit s 15); split; congruence.
Qed.

(** X2: [getiberr] returns a [syscall.Errno] only for the codes 0 and
    12, and the number in it is the C int [ibcnt] converted to
    [uintptr]: [ibcnt] itself when it is not negative, [ibcnt + 2^64]
    when it is. *)
Theorem getiberr_Errno (l : lib) (e : Z) :
  - 2 ^ 31 ≤ ibcnt l < 2 ^ 31 →
  getiberr l = Errno e →
  (iberr l = 0 ∨ iberr l = 12)
  ∧ e = if ibcnt l <? 0 then ibcnt l + 2 ^ 64 else ibcnt l.
Proof.
  intros Hrange. unfold getiberr. cbv zeta.
  assert (uintptr (ibcnt l) = if ibcnt l <? 0 then ibcnt l + 2 ^ 64 else ibcnt l)
    as Hconv.
  { unfold uintptr, wrap_unsigned.
    destruct (Z.ltb_spec (ibcnt l) 0).
    - symmetry. apply Z.mod_unique with (-1); lia.
    - apply Z.mod_small. lia. }
  repeat match goal with
         | |- context [iberr l =? ?c] =>
             destruct (Z.eqb_spec (iberr l) c) as [Hc|?]
         end;
    intros Heq; try discriminate Heq;
    (split; [by (left + right) | congruence]).
Qed.

End Decoder_further.

(** ** The lifecycle *)

Section Lifecycle_further.
Context {lib : Type} `{!Native lib}.
Implicit Types (a : loc) (d : Device) (w : World lib) (buf : list byte).

(** A Close that returned nil left the Device closed. *)
Lemma Close_nil_closed (p : option loc) w w1 :
  Close p w = Returns None w1 → is_closed p w1 = true.
Proof.
  destruct (live_or_dead p w) as [(a & d & -> & Hd)|Hdead].
  - rewrite (Close_eq _ _ _ Hd). unfold is_closed. simpl.
    destruct (closed d) eqn:Hclosed.
    + intros ?; simplify_eq. by rewrite Hd.
    + destruct (ibonl _ _ _) as [rv l']. simpl.
      destruct (Err rv l'); intros ?; simplify_eq; simpl.
      by rewrite lookup_insert_eq.
  - unfold Close, mbind, Go_bind. by rewrite (load_dead _ _ Hdead).
Qed.

(** X3: when the native release of an open Device decodes to success,
    Close returns nil having first invoked the cancel function and then
    called [ibonl(descriptor, 0)], in that order; it sets the closed
    flag and keeps the context, the cancel function and the descriptor,
    and it leaves every other Device in the heap alone. *)
Theorem Close_success a d w (rv : Z) (l' : lib) :
  heap w !! a = Some d → closed d = false →
  ibonl (descriptor d) 0 (native w) = (rv, l') →
  Err rv l' = None →
  ∃ w',
    Close (Some a) w = Returns None w'
    ∧ native w' = l'
    ∧ trace w' = trace w ++ [EvCancel (cancel d); EvIbonl (descriptor d) 0]
    ∧ heap w' !! a = Some (mkDevice (ctx d) (cancel d) true (descriptor d))
    ∧ (∀ a', a' ≠ a → heap w' !! a' = heap w !! a').
Proof.
  intros Hd Hopen Hrel Herr. eexists.
  rewrite (Close_eq _ _ _ Hd), Hopen, Hrel. simpl. rewrite Herr.
  split_and!; [done|done|done| |].
  - simpl. by rewrite lookup_insert_eq.
  - intros a' Hne. simpl. by rewrite lookup_insert_ne.
Qed.

(** What one operation does to the heap: nothing, or it sets the closed
    flag of its own Device, which was open. *)
Lemma step_heap (p : option loc) (o : op) w :
  let w1 := world_of (step p o w) in
  heap w1 = heap w
  ∨ ∃ a d, p = Some a ∧ heap w !! a = Some d ∧ closed d = false
           ∧ heap w1 = <[a := set_closed d true]> (heap w).
Proof.
  destruct (live_or_dead p w) as [(a & d & -> & Hd)|Hdead].
  - destruct o; simpl; unfold mbind, Go_bind.
    + rewrite (Close_eq _ _ _ Hd).
      destruct (closed d) eqn:Hclosed; [by left|].
      destruct (ibonl _ _ _) as [rv l']. simpl.
      destruct (Err rv l'); [by left|]. right. by exists a, d.
    + rewrite (Local_eq _ _ _ Hd). destruct (ibloc _ _) as [rv l']. by left.
    + rewrite (Write_eq _ _ _ _ Hd). cbv zeta.
      destruct (ibwrt _ _ _ _) as [rv l']. simpl.
      destruct (Err rv l'); by left.
    + rewrite (Read_eq _ _ _ _ Hd). cbv zeta.
      destruct (ibrd _ _ _) as [[rv cbuf] l']. simpl.
      destruct (Err rv l'); [by left|].
      destruct (_ <? 0); [by left|]. destruct (_ <? _); by left.
  - rewrite (step_dead _ _ _ Hdead). by left.
Qed.

Lemma run_heap (p : option loc) (ops : list op) w :
  let w' := (run p ops w).2 in
  heap w' = heap w
  ∨ ∃ a d, p = Some a ∧ heap w !! a = Some d ∧ closed d = false
           ∧ heap w' = <[a := set_closed d true]> (heap w).
Proof.
  revert w. induction ops as [|o ops IH]; intros w; cbn [run fst snd].
  { by left. }
  pose proof (step_heap p o w) as Hstep. cbv zeta in Hstep.
  destruct (step p o w) as [r w1|msg w1|w1]; cbn [world_of] in Hstep;
    [|exact Hstep..].
  specialize (IH w1). cbv zeta in IH.
  destruct (run p ops w1) as [log w2]. cbn [fst snd] in *.
  destruct Hstep as [Hsame|(a & d & -> & Hd & Hopen & Hset)].
  - by rewrite Hsame in IH.
  - right. exists a, d. split_and!; [done..|].
    destruct IH as [->|(a2 & d2 & Ha2 & Hd2 & Hopen2 & _)]; [done|].
    simplify_eq. rewrite Hset, lookup_insert_eq in Hd2. by simplify_eq.
Qed.

(** X4: over every sequence of Close, Local, Write and Read on one
    pointer, the heap changes in at most one way: the closed flag of
    that pointer's Device goes from false to true.  Its context, cancel
    function and descriptor are never written, the flag is never
    cleared, and no other Device is touched. *)
Theorem run_only_sets_closed (p : option loc) (ops : list op) w a' (d' : Device) :
  heap w !! a' = Some d' →
  let w' := (run p ops w).2 in
  heap w' !! a' = Some d'
  ∨ (p = Some a' ∧ closed d' = false
     ∧ heap w' !! a' = Some (mkDevice (ctx d') (cancel d') true (descriptor d'))).
Proof.
  intros Hd' w'. destruct (run_heap p ops w) as [Hsame|(a & d & -> & Hd & Hopen & Hset)];
    fold w' in Hsame || fold w' in Hset.
  - left. by rewrite Hsame.
  - rewrite Hset. destruct (decide (a' = a)) as [->|Hne].
    + right. rewrite lookup_insert_eq. by simplify_eq.
    + left. by rewrite lookup_insert_ne.
Qed.

End Lifecycle_further.

(** ** Open, Close and what follows them *)

Section Session_further.
Context {lib : Type} `{!Native lib}.
Implicit Types (a : loc) (d : Device) (w : World lib) (buf : list byte).

(** [C.int] forgets multiples of 2^32. *)
Lemma C_int_periodic (x k : Z) : C_int (x + 2 ^ 32 * k) = C_int x.
Proof.
  unfold C_int, wrap_signed. f_equal.
  replace (x + 2 ^ 32 * k + 2 ^ (32 - 1)) with (x + 2 ^ (32 - 1) + k * 2 ^ 32)
    by lia.
  apply Z_mod_plus_full.
Qed.

(** X5: when Open returns an error, the pointer it returns is nil and
    the error is [OpenError]; no Device has been allocated and the
    context derived for it has not been cancelled, nor can it be, the
    cancel function being dropped.  Every method called on the pointer
    panics on the nil dereference without reaching the native library. *)
Theorem Open_failure_nil (board pad sad : Z) (opts : option Options) w
    (p : option loc) (e : error) w' :
  Open board pad sad opts w = Returns (p, Some e) w' →
  p = None ∧ e = OpenError
  ∧ heap w' = heap w
  ∧ contexts w' = S (contexts w)
  ∧ cancel_count (trace w') = cancel_count (trace w)
  ∧ ∀ o : op, step p o w' = Panics nil_dereference w'.
Proof.
  rewrite Open_eq. cbv zeta.
  destruct (ibdev _ _ _ _ _ _ _) as [desc l'].
  destruct (desc =? -1); intros ?; simplify_eq.
  split_and!; try done.
  - simpl. rewrite cancel_count_app. unfold cancel_count at 2. simpl. lia.
  - intros o. by apply step_dead.
Qed.

(** X6: Open and Close compose.  When [ibdev] answers a descriptor other
    than -1 and the release of that descriptor decodes to success, Open
    followed by Close returns nil twice, the Device ends closed, and the
    trace gains exactly four events: the context derived, [ibdev] called
    with the three numbers as C ints, that same context cancelled, and
    [ibonl] called on the descriptor that [ibdev] answered. *)
Theorem Open_then_Close (board pad sad : Z) (opts : option Options) w
    (desc rv : Z) (l1 l2 : lib) :
  ibdev (C_int board) (C_int pad) (C_int sad) 0 0 0 (native w) = (desc, l1) →
  desc ≠ -1 →
  ibonl desc 0 l1 = (rv, l2) →
  Err rv l2 = None →
  ∃ p w1 w2,
    Open board pad sad opts w = Returns (p, None) w1
    ∧ Close p w1 = Returns None w2
    ∧ is_closed p w2 = true
    ∧ native w2 = l2
    ∧ trace w2 = trace w ++
        [EvWithCancel (contexts w) (Options_context opts);
         EvIbdev (C_int board) (C_int pad) (C_int sad);
         EvCancel (contexts w);
         EvIbonl desc 0].
Proof.
  intros Hdev Hdesc Hrel Herr. rewrite Open_eq. cbv zeta. rewrite Hdev.
  destruct (Z.eqb_spec desc (-1)) as [?|_]; [done|].
  eexists _, _, _. split; [done|].
  rewrite (Close_eq _ (mkDevice (Derived (contexts w) (Options_context opts))
                                (contexts w) false desc))
    by (simpl; apply lookup_insert_eq).
  simpl. rewrite Hrel. simpl. rewrite Herr.
  split_and!; [done| |done|].
  - unfold is_closed. simpl. by rewrite lookup_insert_eq.
  - simpl. by rewrite <-app_assoc.
Qed.

(** X7: Open converts the board and the two addresses to C ints, so
    numbers that differ by a multiple of 2^32 open the same device: the
    call is the same in every respect. *)
Theorem Open_wraps_arguments (board pad sad k1 k2 k3 : Z)
    (opts : option Options) w :
  Open (board + 2 ^ 32 * k1) (pad + 2 ^ 32 * k2) (sad + 2 ^ 32 * k3) opts w
  = Open board pad sad opts w.
Proof. rewrite !Open_eq. cbv zeta. by rewrite !C_int_periodic. Qed.

(** X8: a Close that returned nil is final.  Whatever sequence of
    operations follows on the same pointer, the cancel function is not
    invoked, the native release is not called, and the heap stays as it
    is; but Write, Read and Local do not look at the closed flag, and
    each still calls the native library on the released descriptor. *)
Theorem Close_is_final (p : option loc) w w1 (ops : list op) :
  Close p w = Returns None w1 →
  let w2 := (run p ops w1).2 in
  cancel_count (trace w2) = cancel_count (trace w1)
  ∧ release_count (trace w2) = release_count (trace w1)
  ∧ heap w2 = heap w1
  ∧ ∃ a d, p = Some a ∧ heap w1 !! a = Some d ∧ closed d = true
      ∧ (∀ buf, trace (world_of (Write p buf w1))
                = trace w1 ++ [EvIbwrt (descriptor d) buf
                                 (C_long (Z.of_nat (length buf)))])
      ∧ (∀ buf, trace (world_of (Read p buf w1))
                = trace w1 ++ [EvIbrd (descriptor d)
                                 (C_long (C_size_t (Z.of_nat (length buf))))])
      ∧ trace (world_of (Local p w1)) = trace w1 ++ [EvIbloc (descriptor d)].
Proof.
  intros Hclose w2. pose proof (Close_nil_closed _ _ _ Hclose) as Hclosed.
  destruct (run_cancels p ops w1) as (Hc & Hr & Hm). fold w2 in Hc, Hr, Hm.
  destruct (Hm Hclosed) as [_ Hnone].
  assert (cancel_count (trace w2) = cancel_count (trace w1)) as Hcancel.
  { rewrite Hc, Hnone. unfold newly_closed. rewrite Hclosed. simpl. lia. }
  split_and!; [done|lia| |].
  - destruct (run_heap p ops w1) as [?|(a & d & -> & Hd & Hopen & _)]; [done|].
    unfold is_closed in Hclosed. simpl in Hclosed.
    rewrite Hd, Hopen in Hclosed. done.
  - destruct (live_or_dead p w1) as [(a & d & -> & Hd)|Hdead].
    + exists a, d. unfold is_closed in Hclosed. simpl in Hclosed.
      rewrite Hd in Hclosed. split_and!; [done..| | |].
      * intros buf. rewrite (Write_eq _ _ _ _ Hd). cbv zeta.
        destruct (ibwrt _ _ _ _) as [rv l']. simpl. by destruct (Err rv l').
      * intros buf. rewrite (Read_eq _ _ _ _ Hd). cbv zeta.
        destruct (ibrd _ _ _) as [[rv cbuf] l']. simpl.
        destruct (Err rv l'); [done|]. (destruct (_ <? 0); [done|]; by destruct (_ <? _)).
      * rewrite (Local_eq _ _ _ Hd). by destruct (ibloc _ _) as [rv l'].
    + unfold is_closed in Hclosed. by rewrite Hdead in Hclosed.
Qed.

End Session_further.

(** ** The transfers *)

Section Transfer_further.
Context {lib : Type} `{!Native lib}.
Implicit Types (a : loc) (d : Device) (w : World lib) (buf : list byte).

Lemma C_long_small (x : Z) : 0 ≤ x < 2 ^ 63 → C_long x = x.
Proof.
  intros Hx. unfold C_long, wrap_signed.
  change (2 ^ (64 - 1)) with 9223372036854775808.
  change (2 ^ 64) with 18446744073709551616.
  change (2 ^ 63) with 9223372036854775808 in Hx.
  rewrite Z.mod_small; lia.
Qed.

Lemma C_size_t_small (x : Z) : 0 ≤ x < 2 ^ 63 → C_size_t x = x.
Proof.
  intros Hx. unfold C_size_t, wrap_unsigned.
  change (2 ^ 64) with 18446744073709551616.
  change (2 ^ 63) with 9223372036854775808 in Hx.
  apply Z.mod_small; lia.
Qed.

(** [C.int] of a count is negative exactly when bit 31 of the count is
    set. *)
Lemma C_int_negative (x : Z) : C_int x < 0 ↔ 2 ^ 31 ≤ x `mod` 2 ^ 32.
Proof.
  unfold C_int, wrap_signed.
  change (2 ^ (32 - 1)) with 2147483648. change (2 ^ 32) with 4294967296.
  change (2 ^ 31) with 2147483648.
  Z.div_mod_to_equations. lia.
Qed.

(** X9: whenever Read returns, whatever the native library reported,
    the caller's buffer has kept its length, the count is between 0 and
    that length, and the bytes from the count on are the ones the buffer
    held before; with an error the buffer is untouched. *)
Theorem Read_keeps_buffer_bounds (p : option loc) buf w
    (buf' : list byte) (n : Z) (err : option error) w' :
  Read p buf w = Returns (buf', n, err) w' →
  length buf' = length buf
  ∧ 0 ≤ n ≤ Z.of_nat (length buf)
  ∧ drop (Z.to_nat n) buf' = drop (Z.to_nat n) buf
  ∧ (err ≠ None → buf' = buf).
Proof.
  destruct (live_or_dead p w) as [(a & d & -> & Hd)|Hdead].
  - rewrite (Read_eq _ _ _ _ Hd). cbv zeta.
    destruct (ibrd _ _ _) as [[rv cbuf] l']. cbv beta iota.
    destruct (Err rv l').
    + intros ?; simplify_eq. split_and!; (done || lia).
    + destruct (_ <? 0); [done|]. destruct (_ <? _); [done|].
      match goal with |- context [copy buf ?src] =>
        destruct (copy_spec buf src) as (_ & _ & Hdrop & Hlen) end.
      cbv zeta in Hdrop. unfold copy in *. simpl in *.
      intros ?; simplify_eq. rewrite Nat2Z.id.
      split_and!; (done || lia).
  - by rewrite (Read_dead _ _ _ Hdead).
Qed.

(** X10: Write hands [ibwrt] the descriptor, the whole buffer and its
    exact length, and Read asks [ibrd] for exactly the length of the
    caller's buffer (a Go slice is shorter than 2^63 bytes, so the C
    conversions of the length change nothing); each is the only event
    of the call. *)
Theorem transfer_passes_length a d w buf :
  heap w !! a = Some d →
  Z.of_nat (length buf) < 2 ^ 63 →
  trace (world_of (Write (Some a) buf w))
  = trace w ++ [EvIbwrt (descriptor d) buf (Z.of_nat (length buf))]
  ∧ trace (world_of (Read (Some a) buf w))
    = trace w ++ [EvIbrd (descriptor d) (Z.of_nat (length buf))].
Proof.
  intros Hd Hlen.
  rewrite (Write_eq _ _ _ _ Hd), (Read_eq _ _ _ _ Hd). cbv zeta.
  rewrite (C_size_t_small (Z.of_nat (length buf))) by lia.
  rewrite (C_long_small (Z.of_nat (length buf))) by lia.
  destruct (ibwrt _ _ _ _) as [rv l'], (ibrd _ _ _) as [[rv2 cbuf] l2].
  simpl. split.
  - by destruct (Err rv l').
  - destruct (Err rv2 l2); [done|]. (destruct (_ <? 0); [done|]; by destruct (_ <? _)).
Qed.

(** X11: on a live Device the status and the byte count in [ibcntl],
    cut to a C int, decide how Read ends.  It panics exactly when the
    status decodes to success and the count is negative (bit 31 of
    [ibcntl] is set); it reads past the end of its native buffer
    exactly when the status decodes to success and the count exceeds
    [len buf]; and it returns in exactly the remaining cases: an error
    status, or a count from 0 to [len buf]. *)
Theorem Read_outcome_cases a d w buf (rv : Z) (held : nat → byte) (l' : lib) :
  heap w !! a = Some d →
  Z.of_nat (length buf) < 2 ^ 63 →
  ibrd (descriptor d) (C_long (C_size_t (Z.of_nat (length buf)))) (native w)
    = (rv, held, l') →
  let leng := C_int (ibcntl l') in
  ((∃ msg w', Read (Some a) buf w = Panics msg w')
   ↔ Err rv l' = None ∧ leng < 0)
  ∧ ((∃ w', Read (Some a) buf w = Undefined w')
     ↔ Err rv l' = None ∧ Z.of_nat (length buf) < leng)
  ∧ ((∃ r w', Read (Some a) buf w = Returns r w')
     ↔ Err rv l' ≠ None ∨ 0 ≤ leng ≤ Z.of_nat (length buf))
  ∧ (leng < 0 ↔ 2 ^ 31 ≤ ibcntl l' `mod` 2 ^ 32).
Proof.
  intros Hd Hlen Hrd leng.
  rewrite (Read_eq _ _ _ _ Hd). cbv zeta. rewrite Hrd. simpl.
  rewrite (C_size_t_small (Z.of_nat (length buf))) by lia. fold leng.
  split_and!; [| | |apply C_int_negative].
  - destruct (Err rv l'); [split; [by intros (? & ? & ?) | by intros [? _]]|].
    destruct (Z.ltb_spec leng 0); [split; [done | eauto]|].
    destruct (Z.ltb_spec (Z.of_nat (length buf)) leng);
      (split; [by intros (? & ? & ?) | intros [_ ?]; lia]).
  - destruct (Err rv l'); [split; [by intros (? & ?) | by intros [? _]]|].
    destruct (Z.ltb_spec leng 0);
      [split; [by intros (? & ?) | intros [_ ?]; lia]|].
    destruct (Z.ltb_spec (Z.of_nat (length buf)) leng);
      [split; [done | eauto] | split; [by intros (? & ?) | intros [_ ?]; lia]].
  - destruct (Err rv l'); [split; [by left | eauto]|].
    destruct (Z.ltb_spec leng 0);
      [split; [by intros (? & ? & ?) | intros [?|?]; [done|lia]]|].
    destruct (Z.ltb_spec (Z.of_nat (length buf)) leng);
      [split; [by intros (? & ? & ?) | intros [?|?]; [done|lia]]|].
    split; [intros _; right; lia | eauto].
Qed.

End Transfer_further.

(** ** Package hp437 *)

Section hp437_properties.
Context {lib : Type} `{!Native lib}.
Context {float64 NumError : Type}.
Variable Sprintf_f : float64 → list byte.
Variable TrimSpace : list byte → list byte.
Variable ParseFloat : list byte → float64 * option NumError.
Variable float64_0 : float64.
Implicit Types (a : loc) (d : Device) (w : World lib).

Lemma transmit_eq a d w (payload : list byte) :
  heap w !! a = Some d →
  (r ← Write (Some a) payload; mret r.2) w = hp437.transmitted d w payload.
Proof.
  intros Hd. unfold mbind, Go_bind, hp437.transmitted.
  rewrite (Write_eq _ _ _ _ Hd). cbv zeta.
  destruct (ibwrt _ _ _ _) as [rv l']. simpl. by destruct (Err rv l').
Qed.

Lemma Units_String_cases (u : hp437.Units) :
  (u = hp437.DBM → hp437.Units_String u = hp437.bytes "dBm")
  ∧ (u = hp437.Watts → hp437.Units_String u = hp437.bytes "Watts")
  ∧ (u ≠ hp437.DBM → u ≠ hp437.Watts → hp437.Units_String u = u).
Proof.
  unfold hp437.Units_String. split_and!.
  - intros ->. by rewrite bool_decide_eq_true_2.
  - intros ->. by rewrite bool_decide_eq_false_2, bool_decide_eq_true_2.
  - intros ? ?. by rewrite !bool_decide_eq_false_2.
Qed.

(** X12: Unit puts on the bus what the [String] method of the unit
    returns, followed by CR LF, because [fmt] formats a [Units] through
    that method: for [DBM] the bytes of "dBm" and for [Watts] those of
    "Watts", not the mnemonics "LG" and "LN" the two variables hold; any
    other unit goes out as it is.  The result is the decoded status of
    that one [ibwrt]. *)
Theorem Unit_transmits_String a d w (u : hp437.Units) :
  heap w !! a = Some d →
  ∃ name,
    hp437.Unit (hp437.New (Some a)) u w = hp437.transmitted d w (name ++ hp437.CRLF)
    ∧ (u = hp437.DBM → name = hp437.bytes "dBm" ∧ name ≠ u)
    ∧ (u = hp437.Watts → name = hp437.bytes "Watts" ∧ name ≠ u)
    ∧ (u ≠ hp437.DBM → u ≠ hp437.Watts → name = u).
Proof.
  intros Hd. exists (hp437.Units_String u).
  destruct (Units_String_cases u) as (Hdbm & Hwatts & Hother).
  split_and!.
  - unfold hp437.Unit, hp437.New. simpl. by apply transmit_eq.
  - intros ->. by rewrite Hdbm.
  - intros ->. by rewrite Hwatts.
  - done.
Qed.

(** X13: DisplayUser sends "DU", the text as given and CR LF in one
    [ibwrt] of [len s + 4] bytes.  The text is not escaped or cut: a
    CR LF inside it reaches the instrument as a line end. *)
Theorem DisplayUser_verbatim a d w (s : list byte) :
  heap w !! a = Some d →
  Z.of_nat (length s) + 4 < 2 ^ 63 →
  let payload := hp437.bytes "DU" ++ s ++ hp437.CRLF in
  hp437.DisplayUser (hp437.New (Some a)) s w = hp437.transmitted d w payload
  ∧ trace (world_of (hp437.DisplayUser (hp437.New (Some a)) s w))
    = trace w ++ [EvIbwrt (descriptor d) payload (Z.of_nat (length s) + 4)].
Proof.
  intros Hd Hlen payload.
  assert (hp437.DisplayUser (hp437.New (Some a)) s w = hp437.transmitted d w payload)
    as Heq by (unfold hp437.DisplayUser, hp437.New; simpl; by apply transmit_eq).
  split; [done|]. rewrite Heq. unfold hp437.transmitted. cbv zeta.
  assert (Z.of_nat (length payload) = Z.of_nat (length s) + 4) as Hpl.
  { unfold payload. rewrite !length_app. simpl. lia. }
  rewrite Hpl, C_long_small by lia.
  by destruct (ibwrt _ _ _ _) as [rv l'].
Qed.

(** X14: every command of the driver (Reset, Zero, DisplayUser, Unit,
    Offset) makes exactly one native call, an [ibwrt] on the descriptor
    of a payload that ends in CR LF, returns nil exactly when bit 15 of
    the status that call answered is clear, and leaves the heap alone;
    the byte count of the Write is dropped. *)
Theorem commands_transmit_one_line a d w (s : list byte) (u : hp437.Units)
    (x : float64) :
  heap w !! a = Some d →
  let dev := hp437.New (Some a) in
  Forall (λ '(command, payload),
            command w = hp437.transmitted d w (payload ++ hp437.CRLF)
            ∧ heap (world_of (command w)) = heap w
            ∧ ∀ rv l', ibwrt (descriptor d) (payload ++ hp437.CRLF)
                         (C_long (Z.of_nat (length (payload ++ hp437.CRLF))))
                         (native w) = (rv, l') →
                (∃ w', command w = Returns None w') ↔ Z.testbit rv 15 = false)
    [ (hp437.Reset dev, hp437.bytes "*RST");
      (hp437.Zero dev, hp437.bytes "ZE");
      (hp437.DisplayUser dev s, hp437.bytes "DU" ++ s);
      (hp437.Unit dev u, hp437.Units_String u);
      (hp437.Offset Sprintf_f dev x,
       hp437.bytes "OS" ++ Sprintf_f x ++ hp437.bytes "EN") ].
Proof.
  intros Hd dev.
  assert (∀ (command : Go lib (option error)) payload,
            command w = hp437.transmitted d w (payload ++ hp437.CRLF) →
            command w = hp437.transmitted d w (payload ++ hp437.CRLF)
            ∧ heap (world_of (command w)) = heap w
            ∧ ∀ rv l', ibwrt (descriptor d) (payload ++ hp437.CRLF)
                         (C_long (Z.of_nat (length (payload ++ hp437.CRLF))))
                         (native w) = (rv, l') →
                (∃ w', command w = Returns None w') ↔ Z.testbit rv 15 = false)
    as Hone.
  { intros command payload Heq. rewrite Heq. unfold hp437.transmitted. cbv zeta.
    split; [done|]. split.
    - by destruct (ibwrt _ _ _ _) as [rv l'].
    - intros rv l' ->. rewrite Err_bit15.
      destruct (Z.testbit rv 15); split; (done || eauto).
      by intros (? & ?). }
  repeat apply Forall_cons_2; [..|apply Forall_nil_2]; apply Hone;
    unfold hp437.Reset, hp437.Zero, hp437.DisplayUser, hp437.Unit,
           hp437.Offset, dev, hp437.New; cbn [hp437.gpib_Device];
    rewrite <-?app_assoc; by apply transmit_eq.
Qed.

(** Slicing a buffer up to a count within its length does not panic. *)
Lemma slice_to_in_range (buf : list byte) (i : Z) w :
  0 ≤ i ≤ Z.of_nat (length buf) →
  hp437.slice_to buf i w = Returns (take (Z.to_nat i) buf) w.
Proof.
  intros Hi. unfold hp437.slice_to.
  destruct (Z.ltb_spec i 0); [lia|].
  destruct (Z.ltb_spec (Z.of_nat (length buf)) i); [lia|]. done.
Qed.

(** X15: Power asks [ibrd] for 1024 bytes.  If the status decodes to an
    error it returns 0 and that error and parses nothing.  If the byte
    count, as a C int, is negative, Read panics; if it is above 1024,
    Read reads past the end of its 1024-byte native buffer, and Power
    does not deliver the first 1024 bytes of the reply.  For a count
    from 0 to 1024 Power takes that many bytes of the native buffer,
    passes them through [strings.TrimSpace] to [strconv.ParseFloat] and
    returns what that returns; the two slice expressions do not go out
    of range. *)
Theorem Power_parses_reply a d w (rv : Z) (held : nat → byte) (l' : lib) :
  heap w !! a = Some d →
  ibrd (descriptor d) 1024 (native w) = (rv, held, l') →
  let w' := mkWorld l' (heap w) (trace w ++ [EvIbrd (descriptor d) 1024])
                    (contexts w) in
  hp437.Power TrimSpace ParseFloat float64_0 (hp437.New (Some a)) w =
    match Err rv l' with
    | Some e => Returns (float64_0, Some (inl e)) w'
    | None =>
        let leng := C_int (ibcntl l') in
        if leng <? 0 then
          Panics "runtime error: gobytes: length out of range" w'
        else if 1024 <? leng then Undefined w'
        else
          let reply := held <$> seq 0 (Z.to_nat leng) in
          Returns ((ParseFloat (TrimSpace reply)).1,
                   inr <$> (ParseFloat (TrimSpace reply)).2) w'
    end.
Proof.
  intros Hd Hrd w'.
  unfold hp437.Power, hp437.New, mbind, Go_bind. cbn [hp437.gpib_Device].
  rewrite (Read_eq _ _ _ _ Hd). cbv zeta.
  change (C_long (C_size_t (Z.of_nat (length (hp437.make 1024))))) with 1024.
  change (C_size_t (Z.of_nat (length (hp437.make 1024)))) with 1024.
  rewrite Hrd. cbv beta iota. fold w'.
  destruct (Err rv l'); [done|].
  destruct (Z.ltb_spec (C_int (ibcntl l')) 0) as [?|Hpos]; [done|].
  destruct (Z.ltb_spec 1024 (C_int (ibcntl l'))) as [?|Hfits]; [done|].
  set (src := held <$> seq 0 (Z.to_nat (C_int (ibcntl l')))).
  destruct (copy_spec (hp437.make 1024) src) as (Hn & Htake & _ & Hlen).
  cbv zeta in Hn, Htake.
  assert (length (hp437.make 1024) = 1024%nat) as Hmake
    by apply length_replicate.
  assert (length src = Z.to_nat (C_int (ibcntl l'))) as Hsrc
    by (unfold src; by rewrite length_fmap, length_seq).
  rewrite Hmake, Hsrc in Hn, Htake.
  replace (1024 `min` Z.to_nat (C_int (ibcntl l')))%nat
    with (Z.to_nat (C_int (ibcntl l'))) in Hn, Htake by lia.
  rewrite slice_to_in_range by (rewrite Hlen, Hn, Hmake; lia).
  rewrite slice_to_in_range
    by (rewrite length_take, Hlen, Hn, Hmake, Nat2Z.id; lia).
  rewrite Hn, Nat2Z.id, take_take, Nat.min_id, Htake.
  rewrite take_ge by lia.
  by destruct (ParseFloat _) as [x e].
Qed.

End hp437_properties.

(** ** Further runs on the simulated board *)

Lemma getiberr_Errno_witness :
  let l := mkBoard 12 (-1) 0 [] in
  - 2 ^ 31 ≤ ibcnt l < 2 ^ 31
  ∧ getiberr l = Errno 18446744073709551615
  ∧ (iberr l = 0 ∨ iberr l = 12)
  ∧ 18446744073709551615 = if ibcnt l <? 0 then ibcnt l + 2 ^ 64 else ibcnt l.
Proof.
  intros l.
  assert (- 2 ^ 31 ≤ ibcnt l < 2 ^ 31) as Hrange by (simpl; lia).
  assert (getiberr l = Errno 18446744073709551615) as Hget by reflexivity.
  split; [exact Hrange|]. split; [exact Hget|].
  exact (getiberr_Errno l 18446744073709551615 Hrange Hget).
Defined.

Lemma Close_success_witness :
  let w := session [] in
  heap w !! 0%nat = Some device0
  ∧ closed device0 = false
  ∧ ibonl (descriptor device0) 0 (native w) = (CMPL, board [])
  ∧ Err CMPL (board []) = None
  ∧ ∃ w',
      Close (Some 0%nat) w = Returns None w'
      ∧ native w' = board []
      ∧ trace w' = trace w ++ [EvCancel (cancel device0);
                               EvIbonl (descriptor device0) 0]
      ∧ heap w' !! 0%nat
        = Some (mkDevice (ctx device0) (cancel device0) true (descriptor device0))
      ∧ (∀ a', a' ≠ 0%nat → heap w' !! a' = heap w !! a').
Proof.
  intros w.
  assert (heap w !! 0%nat = Some device0) as Hd by reflexivity.
  assert (ibonl (descriptor device0) 0 (native w) = (CMPL, board [])) as Hrel
    by reflexivity.
  assert (Err CMPL (board []) = None) as Herr by reflexivity.
  split_and!; [exact Hd | reflexivity | exact Hrel | exact Herr|].
  exact (Close_success 0%nat device0 w CMPL (board []) Hd eq_refl Hrel Herr).
Defined.

Lemma run_only_sets_closed_witness :
  let w := session [] in
  let w' := (run (Some 0%nat) [OpWrite RST; OpClose; OpLocal] w).2 in
  heap w !! 0%nat = Some device0
  ∧ (heap w' !! 0%nat = Some device0
     ∨ (Some 0%nat = Some 0%nat ∧ closed device0 = false
        ∧ heap w' !! 0%nat
          = Some (mkDevice (ctx device0) (cancel device0) true
                           (descriptor device0)))).
Proof.
  intros w w'.
  assert (heap w !! 0%nat = Some device0) as Hd by reflexivity.
  split; [exact Hd|].
  exact (run_only_sets_closed (Some 0%nat) [OpWrite RST; OpClose; OpLocal]
           w 0%nat device0 Hd).
Defined.

Lemma Open_failure_nil_witness :
  let w := boot [mkReply (-1) 0 0 0 []] in
  let w' := world_of (Open 0 13 0 None w) in
  Open 0 13 0 None w = Returns (None, Some OpenError) w'
  ∧ heap w' = heap w
  ∧ contexts w' = S (contexts w)
  ∧ cancel_count (trace w') = cancel_count (trace w)
  ∧ ∀ o : op, step None o w' = Panics nil_dereference w'.
Proof.
  intros w w'.
  assert (Open 0 13 0 None w = Returns (None, Some OpenError) w') as Hopen
    by reflexivity.
  split; [exact Hopen|].
  exact (proj2 (proj2 (Open_failure_nil 0 13 0 None w None OpenError w' Hopen))).
Defined.

Lemma Open_then_Close_witness :
  let w := boot [mkReply 16 0 0 0 []] in
  ibdev (C_int 0) (C_int 13) (C_int 0) 0 0 0 (native w) = (16, board [])
  ∧ 16 ≠ -1
  ∧ ibonl 16 0 (board []) = (CMPL, board [])
  ∧ Err CMPL (board []) = None
  ∧ ∃ p w1 w2,
      Open 0 13 0 None w = Returns (p, None) w1
      ∧ Close p w1 = Returns None w2
      ∧ is_closed p w2 = true
      ∧ native w2 = board []
      ∧ trace w2 = trace w ++
          [EvWithCancel (contexts w) (Options_context None);
           EvIbdev (C_int 0) (C_int 13) (C_int 0);
           EvCancel (contexts w);
           EvIbonl 16 0].
Proof.
  intros w.
  assert (ibdev (C_int 0) (C_int 13) (C_int 0) 0 0 0 (native w) = (16, board []))
    as Hdev by reflexivity.
  assert (16 ≠ -1) as Hdesc by lia.
  assert (ibonl 16 0 (board []) = (CMPL, board [])) as Hrel by reflexivity.
  assert (Err CMPL (board []) = None) as Herr by reflexivity.
  split_and!; [exact Hdev | exact Hdesc | exact Hrel | exact Herr|].
  exact (Open_then_Close 0 13 0 None w 16 CMPL (board []) (board [])
           Hdev Hdesc Hrel Herr).
Defined.

Lemma Close_is_final_witness :
  let w := session [] in
  let w1 := world_of (Close (Some 0%nat) w) in
  let w2 := (run (Some 0%nat) [OpClose; OpWrite RST; OpClose] w1).2 in
  Close (Some 0%nat) w = Returns None w1
  ∧ cancel_count (trace w2) = cancel_count (trace w1)
  ∧ release_count (trace w2) = release_count (trace w1)
  ∧ heap w2 = heap w1.
Proof.
  intros w w1 w2.
  assert (Close (Some 0%nat) w = Returns None w1) as Hclose by reflexivity.
  split; [exact Hclose|].
  destruct (Close_is_final (Some 0%nat) w w1 [OpClose; OpWrite RST; OpClose]
              Hclose) as (Hc & Hr & Hh & _).
  split_and!; [exact Hc | exact Hr | exact Hh].
Defined.

Lemma Read_keeps_buffer_bounds_witness :
  let w := session [received (2 ^ 32 + 5) RST] in
  let buf := replicate 8 Byte.xff in
  let buf' := [Byte.x2a; Byte.x52; Byte.x53; Byte.x54; Byte.x0d;
               Byte.xff; Byte.xff; Byte.xff] in
  Read (Some 0%nat) buf w
  = Returns (buf', 5, None) (world_of (Read (Some 0%nat) buf w))
  ∧ length buf' = length buf
  ∧ 0 ≤ 5 ≤ Z.of_nat (length buf)
  ∧ drop (Z.to_nat 5) buf' = drop (Z.to_nat 5) buf
  ∧ ((None : option error) ≠ None → buf' = buf).
Proof.
  intros w buf buf'.
  assert (Read (Some 0%nat) buf w
          = Returns (buf', 5, None) (world_of (Read (Some 0%nat) buf w)))
    as Hread by (vm_compute; reflexivity).
  split; [exact Hread|].
  exact (Read_keeps_buffer_bounds (Some 0%nat) buf w buf' 5 None _ Hread).
Defined.

Lemma transfer_passes_length_witness :
  let w := session [] in
  heap w !! 0%nat = Some device0
  ∧ Z.of_nat (length RST) < 2 ^ 63
  ∧ trace (world_of (Write (Some 0%nat) RST w))
    = trace w ++ [EvIbwrt (descriptor device0) RST (Z.of_nat (length RST))]
  ∧ trace (world_of (Read (Some 0%nat) RST w))
    = trace w ++ [EvIbrd (descriptor device0) (Z.of_nat (length RST))].
Proof.
  intros w.
  assert (heap w !! 0%nat = Some device0) as Hd by reflexivity.
  assert (Z.of_nat (length RST) < 2 ^ 63) as Hlen by (simpl; lia).
  split; [exact Hd|]. split; [exact Hlen|].
  exact (transfer_passes_length 0%nat device0 w RST Hd Hlen).
Defined.

Lemma Read_outcome_cases_witness :
  let w := session [received (-1) RST] in
  let buf := replicate 8 Byte.x00 in
  heap w !! 0%nat = Some device0
  ∧ Z.of_nat (length buf) < 2 ^ 63
  ∧ ibrd (descriptor device0) (C_long (C_size_t (Z.of_nat (length buf))))
         (native w)
    = (CMPL, λ i, nth i RST Byte.x00, mkBoard 0 0 (-1) [])
  ∧ ∃ msg w', Read (Some 0%nat) buf w = Panics msg w'.
Proof.
  intros w buf.
  assert (heap w !! 0%nat = Some device0) as Hd by reflexivity.
  assert (Z.of_nat (length buf) < 2 ^ 63) as Hlen by (simpl; lia).
  assert (ibrd (descriptor device0) (C_long (C_size_t (Z.of_nat (length buf))))
               (native w)
          = (CMPL, λ i, nth i RST Byte.x00, mkBoard 0 0 (-1) [])) as Hrd
    by (vm_compute; reflexivity).
  split; [exact Hd|]. split; [exact Hlen|]. split; [exact Hrd|].
  apply (proj2 (proj1 (Read_outcome_cases 0%nat device0 w buf CMPL _ _
                         Hd Hlen Hrd))).
  split; [reflexivity|]. vm_compute. reflexivity.
Defined.

Lemma Unit_transmits_String_witness :
  let w := session [] in
  heap w !! 0%nat = Some device0
  ∧ hp437.Unit (hp437.New (Some 0%nat)) hp437.DBM w
    = hp437.transmitted device0 w (hp437.bytes "dBm" ++ hp437.CRLF).
Proof.
  intros w.
  assert (heap w !! 0%nat = Some device0) as Hd by reflexivity.
  split; [exact Hd|].
  destruct (Unit_transmits_String 0%nat device0 w hp437.DBM Hd)
    as (name & Hsent & Hdbm & _).
  destruct (Hdbm eq_refl) as [Hname _]. rewrite Hname in Hsent. exact Hsent.
Defined.

Lemma DisplayUser_verbatim_witness :
  let w := session [] in
  let s := hp437.bytes "HI" ++ hp437.CRLF ++ hp437.bytes "ZE" in
  heap w !! 0%nat = Some device0
  ∧ Z.of_nat (length s) + 4 < 2 ^ 63
  ∧ trace (world_of (hp437.DisplayUser (hp437.New (Some 0%nat)) s w))
    = trace w ++ [EvIbwrt (descriptor device0)
                    (hp437.bytes "DU" ++ s ++ hp437.CRLF) 10].
Proof.
  intros w s.
  assert (heap w !! 0%nat = Some device0) as Hd by reflexivity.
  assert (Z.of_nat (length s) + 4 < 2 ^ 63) as Hlen by (simpl; lia).
  split; [exact Hd|]. split; [exact Hlen|].
  exact (proj2 (DisplayUser_verbatim 0%nat device0 w s Hd Hlen)).
Defined.

Lemma commands_transmit_one_line_witness :
  let w := session [failure 2] in
  heap w !! 0%nat = Some device0
  ∧ hp437.Reset (hp437.New (Some 0%nat)) w
    = hp437.transmitted device0 w (hp437.bytes "*RST" ++ hp437.CRLF)
  ∧ heap (world_of (hp437.Reset (hp437.New (Some 0%nat)) w)) = heap w.
Proof.
  intros w.
  assert (heap w !! 0%nat = Some device0) as Hd by reflexivity.
  split; [exact Hd|].
  pose proof (commands_transmit_one_line (λ x : Z, hp437.bytes "1.000000")
                0%nat device0 w [] hp437.DBM 1 Hd) as Hall.
  apply Forall_cons_1 in Hall as [(Hsent & Hheap & _) _].
  split; [exact Hsent | exact Hheap].
Defined.

Lemma Power_parses_reply_witness :
  let w := session [received 6 (hp437.bytes "1.25" ++ hp437.CRLF)] in
  let parse (s : list byte) : list byte * option unit := (s, None) in
  let trim (s : list byte) : list byte := take 4 s in
  heap w !! 0%nat = Some device0
  ∧ ibrd (descriptor device0) 1024 (native w)
    = (CMPL, λ i, nth i (hp437.bytes "1.25" ++ hp437.CRLF) Byte.x00,
       mkBoard 0 0 6 [])
  ∧ hp437.Power trim parse [] (hp437.New (Some 0%nat)) w
    = Returns (hp437.bytes "1.25", None)
        (mkWorld (mkBoard 0 0 6 []) (heap w) [EvIbrd 16 1024] 1%nat).
Proof.
  intros w parse trim.
  assert (heap w !! 0%nat = Some device0) as Hd by reflexivity.
  assert (ibrd (descriptor device0) 1024 (native w)
          = (CMPL, λ i, nth i (hp437.bytes "1.25" ++ hp437.CRLF) Byte.x00,
             mkBoard 0 0 6 [])) as Hrd by reflexivity.
  split; [exact Hd|]. split; [exact Hrd|].
  pose proof (Power_parses_reply trim parse [] 0%nat device0 w CMPL _ _ Hd Hrd)
    as Hpower.
  refine (eq_trans Hpower _). vm_compute. reflexivity.
Defined.
